(** * jmp: the Jupyter messaging protocol over ZMQ sockets

    A shallow embedding of [src/index.js]: the [Message] class with its
    [respond], [_decode] and [_encode] methods, and the [Socket] class that
    wraps the listeners of a ZMQ socket.

    JavaScript values are embedded as the inductive type [value]; a method
    that mutates [this], writes to the console or may throw is a function in
    the state-and-exception monad [Exec].  The platform libraries the module
    calls ([JSON], [crypto], [node-uuid]) are interfaces (type classes); the
    parent prototype [zmq.Socket.prototype], an [events.EventEmitter], is
    modelled in [Module Parent]. *)

From Stdlib Require Import Ascii String.
From stdpp Require Import base option numbers list strings.

Set Warnings "-register-all".
Local Open Scope Z_scope.

(** ** JavaScript values *)

(** The values a message field can hold: what [JSON.parse] returns and what
    [JSON.stringify] consumes.  The value [undefined] is not a [value]: an
    expression that may be [undefined] has type [option value], with [None]
    for [undefined].  A number is an integer (the module computes with
    none).  An object is the list of its own properties in insertion
    order; a property holding [undefined] is represented by its absence
    (the module only reads properties and serialises objects, and neither
    tells the two apart). *)
Inductive value : Type :=
  | VNull
  | VBool (b : bool)
  | VNum (n : Z)
  | VStr (s : string)
  | VArr (elems : list value)
  | VObj (props : list (string * value)).

(** The empty object literal. *)
Definition empty_object : value := VObj [].

(** ToBoolean. *)
Definition truthy (v : value) : bool :=
  match v with
  | VNull => false
  | VBool b => b
  | VNum n => negb (n =? 0)
  | VStr s => negb (String.eqb s "")
  | VArr _ => true
  | VObj _ => true
  end.


(** ToBoolean of an optional string argument ([scheme], [key],
    [protocolVersion]). *)
Definition truthy_str (o : option string) : bool :=
  match o with
  | Some s => negb (String.eqb s "")
  | None => false
  end.

(** [o || d] for an optional string argument. *)
Definition or_string (o : option string) (d : string) : string :=
  match o with
  | Some s => if String.eqb s "" then d else s
  | None => d
  end.

(** [o || d] for an expression that may be [undefined]. *)
Definition or_value (o : option value) (d : value) : value :=
  match o with
  | Some v => if truthy v then v else d
  | None => d
  end.

(** Own-property lookup in a property list. *)
Fixpoint lookup_prop (k : string) (props : list (string * value)) : option value :=
  match props with
  | [] => None
  | (k', v) :: rest => if String.eqb k k' then Some v else lookup_prop k rest
  end.

(** [obj.k = v] on a property list: an existing property keeps its place,
    a new one is appended. *)
Fixpoint assign_prop (k : string) (v : value) (props : list (string * value))
  : list (string * value) :=
  match props with
  | [] => [(k, v)]
  | (k', v') :: rest =>
      if String.eqb k k' then (k, v) :: rest else (k', v') :: assign_prop k v rest
  end.

(** [obj.k = v]; a property assignment on a primitive is ignored. *)
Definition set_prop (k : string) (v : value) (obj : value) : value :=
  match obj with
  | VObj props => VObj (assign_prop k v props)
  | other => other
  end.

(** An object literal [{k1: e1, ..., kn: en}] whose [ei] may be [undefined]. *)
Fixpoint object_literal (fields : list (string * option value)) : list (string * value) :=
  match fields with
  | [] => []
  | (k, Some v) :: rest => (k, v) :: object_literal rest
  | (_, None) :: rest => object_literal rest
  end.

(** ** Exceptions, results and the [Exec] monad *)

Inductive exn : Type :=
  | TypeError     (** property access or method call on [null]/[undefined],
                      or a library refusing an argument of the wrong type *)
  | SyntaxError   (** [JSON.parse] on a text that is not JSON *)
  | CryptoError   (** [crypto.createHmac] on a hash it does not know (an
                      [Error] or a [TypeError], by the version of the
                      platform) *)
  | UnhandledError.  (** an ["error"] event emitted with no listener *)

Inductive result (A : Type) : Type :=
  | Normal (a : A)
  | Thrown (e : exn).
Arguments Normal {A} a.
Arguments Thrown {A} e.

(** A computation over a state [S] that returns normally or throws. *)
Definition Exec (S A : Type) : Type := S -> result A * S.

Definition ret {S A} (a : A) : Exec S A := fun s => (Normal a, s).

Definition bind {S A B} (c : Exec S A) (k : A -> Exec S B) : Exec S B :=
  fun s =>
    match c s with
    | (Normal a, s') => k a s'
    | (Thrown e, s') => (Thrown e, s')
    end.

Definition throw {S A} (e : exn) : Exec S A := fun s => (Thrown e, s).

Definition get_state {S} : Exec S S := fun s => (Normal s, s).

(** The result of a call that touches no state. *)
Definition lift {S A} (r : result A) : Exec S A := fun s => (r, s).

Definition modify {S} (f : S -> S) : Exec S unit := fun s => (Normal tt, f s).

Declare Scope exec_scope.
Delimit Scope exec_scope with exec.
Notation "x <- c1 ;; c2" := (bind c1 (fun x => c2))
  (at level 100, c1 at next level, right associativity) : exec_scope.
Notation "c1 ;; c2" := (bind c1 (fun _ => c2))
  (at level 100, right associativity) : exec_scope.

(** [o.k] where [o] may be [null] or [undefined]: reading a property of
    either throws a TypeError; a primitive or an array has none of the
    properties the module reads ([username], [session], [version]). *)
Definition get_prop {S} (k : string) (o : option value) : Exec S (option value) :=
  match o with
  | None => throw TypeError
  | Some VNull => throw TypeError
  | Some (VObj props) => ret (lookup_prop k props)
  | Some _ => ret None
  end.

(** ** Frames *)

(** A frame of a multipart ZMQ message: a [Buffer] when it arrives from the
    socket, a string when [_encode] builds it.  Both are embedded as the
    string of their bytes. *)
Definition frame : Type := string.

(** [part.toString()]: the text of a frame. *)
Definition toString (part : frame) : string := part.

Definition DELIMITER : string := "<IDS|MSG>".

(** ** The platform libraries *)

(** The global [JSON] object. [JSON_parse] is [None] where [JSON.parse]
    throws a SyntaxError. *)
Class JSONLib : Type := {
  JSON_stringify : value -> string;
  JSON_parse : string -> option value;
}.

(** Module [crypto]: [known_scheme scheme] tells whether [scheme] names a
    hash of the platform (one of [crypto.getHashes()]), and
    [hmac_digest scheme key data] is the hex digest of the HMAC of [data]
    under [key] with such a hash. *)
Class CryptoLib : Type := {
  known_scheme : string -> bool;
  hmac_digest : string -> string -> string -> string;
}.

(** Module [node-uuid]: [uuid_v4] draws an identifier from the generator
    state. *)
Class UuidLib : Type := {
  rng : Type;
  uuid_v4 : rng -> string * rng;
}.

(** The object [crypto.createHmac(scheme, key)] returns: the data passed to
    [update] so far is kept until [digest]. *)
Record Hmac : Type := mkHmac {
  hmac_scheme : string;
  hmac_key : string;
  hmac_data : string;
}.

(** [crypto.createHmac(scheme, key)] with a string [key]: it throws for
    a [scheme] that is not a hash of the platform. *)
Definition createHmac `{CryptoLib} (scheme key : string) : result Hmac :=
  if known_scheme scheme
  then Normal {| hmac_scheme := scheme; hmac_key := key; hmac_data := "" |}
  else Thrown CryptoError.

(** [hmac.update(data)] on a string or a buffer. *)
Definition hmac_append (h : Hmac) (data : frame) : Hmac :=
  {| hmac_scheme := hmac_scheme h; hmac_key := hmac_key h;
     hmac_data := hmac_data h +:+ data |}.

(** [hmac.update(data)] where [data] may be [undefined]: the argument must
    be a string or a buffer, so [undefined] throws a TypeError. *)
Definition hmac_update {S} (h : Hmac) (data : option frame) : Exec S Hmac :=
  match data with
  | Some d => ret (hmac_append h d)
  | None => throw TypeError
  end.

(** [hmac.digest("hex")]. *)
Definition hmac_digest_hex `{CryptoLib} (h : Hmac) : string :=
  hmac_digest (hmac_scheme h) (hmac_key h) (hmac_data h).

(** ** Messages *)

Record Message : Type := mkMessage {
  idents : list frame;
  header : value;
  parentHeader : value;
  metadata : value;
  content : value;
  blobs : list frame;
  signatureOK : option bool;   (** [null] is [None] *)
}.

(** The [properties] argument of the constructor. *)
Record Properties : Type := mkProperties {
  p_idents : option (list frame);
  p_header : option value;
  p_parentHeader : option value;
  p_metadata : option value;
  p_content : option value;
  p_blobs : option (list frame);
}.

(** [new Message(properties)]; an array is truthy, so
    [properties.idents || []] is the array when there is one. *)
Definition new_Message (properties : option Properties) : Message :=
  {| idents := default [] (properties ≫= p_idents);
     header := or_value (properties ≫= p_header) empty_object;
     parentHeader := or_value (properties ≫= p_parentHeader) empty_object;
     metadata := or_value (properties ≫= p_metadata) empty_object;
     content := or_value (properties ≫= p_content) empty_object;
     blobs := default [] (properties ≫= p_blobs);
     signatureOK := None |}.

Definition set_idents (x : list frame) (m : Message) : Message :=
  mkMessage x (header m) (parentHeader m) (metadata m) (content m) (blobs m) (signatureOK m).
Definition set_header (x : value) (m : Message) : Message :=
  mkMessage (idents m) x (parentHeader m) (metadata m) (content m) (blobs m) (signatureOK m).
Definition set_parentHeader (x : value) (m : Message) : Message :=
  mkMessage (idents m) (header m) x (metadata m) (content m) (blobs m) (signatureOK m).
Definition set_metadata (x : value) (m : Message) : Message :=
  mkMessage (idents m) (header m) (parentHeader m) x (content m) (blobs m) (signatureOK m).
Definition set_content (x : value) (m : Message) : Message :=
  mkMessage (idents m) (header m) (parentHeader m) (metadata m) x (blobs m) (signatureOK m).
Definition set_blobs (x : list frame) (m : Message) : Message :=
  mkMessage (idents m) (header m) (parentHeader m) (metadata m) (content m) x (signatureOK m).
Definition set_signatureOK (x : option bool) (m : Message) : Message :=
  mkMessage (idents m) (header m) (parentHeader m) (metadata m) (content m) (blobs m) x.

(** ** What a run leaves behind *)

(** The lines [_decode] writes with [console.error]. *)
Inductive diagnostic : Type :=
  | NotEnoughFrames (messageFrames : list frame)
  | MissingDelimiter (messageFrames : list frame)
  | IncorrectSignature (obtained expected : string).

(** A function supplied by the caller of [on] or [removeListener], known
    by its identity. *)
Definition handler : Type := nat.

(** What a listener is called with. *)
Inductive listener_args : Type :=
  | WithMessage (message : Message)
  | WithFrames (frames : list frame).

(** The observable steps of a run, oldest first: console output, calls into
    the platform libraries, calls of the caller's listeners, and frames
    handed to the ZMQ socket. *)
Inductive event : Type :=
  | ConsoleError (d : diagnostic)
  | ConsoleLog (message : Message)
  | CallJSONParse (text : string)
  | CallCreateHmac (scheme key : string)
  | CallListener (h : handler) (args : listener_args)
  | ZmqSend (frames : list frame) (flags : option Z).

(** The state a method of [Message] runs in: the receiver and the trace. *)
Record MsgState : Type := mkMsgState {
  this : Message;
  trace : list event;
}.

Definition log (e : event) : Exec MsgState unit :=
  modify (fun s => {| this := this s; trace := trace s ++ [e] |}).

Definition console_error (d : diagnostic) : Exec MsgState unit :=
  log (ConsoleError d).

(** An assignment to a field of [this]. *)
Definition update_this (f : Message -> Message) : Exec MsgState unit :=
  modify (fun s => {| this := f (this s); trace := trace s |}).

(** [messageFrames[j].toString()]; the element is [undefined] past the end
    of the array, and calling a method of [undefined] throws. *)
Definition frame_text {S} (part : option frame) : Exec S string :=
  match part with
  | Some p => ret (toString p)
  | None => throw TypeError
  end.

Section Codec.
Context {json : JSONLib} {crypto : CryptoLib}.

(** The local function [toJSON] of [_decode]:
    [JSON.parse(value.toString())]. *)
Definition toJSON (part : option frame) : Exec MsgState value :=
  (text <- frame_text part ;;
   log (CallJSONParse text) ;;
   match JSON_parse text with
   | Some v => ret v
   | None => throw SyntaxError
   end)%exec.

(** The loop of [_decode], entered at index [i] with [rest] the frames
    from [i] on: it returns the index it stops at. *)
Fixpoint scan_idents (rest : list frame) (i : nat) : Exec MsgState nat :=
  match rest with
  | [] => ret i
  | part :: rest' =>
      if String.eqb (toString part) DELIMITER then ret i
      else (update_this (fun m => set_idents (idents m ++ [part]) m) ;;
            scan_idents rest' (S i))%exec
  end.

(** Lines 208-212 of [_decode]: the body frames, in the order the source
    assigns them (content before metadata). *)
Definition decode_body (messageFrames : list frame) (i : nat) : Exec MsgState unit :=
  (h <- toJSON (messageFrames !! (i + 2)%nat) ;;
   update_this (set_header h) ;;
   p <- toJSON (messageFrames !! (i + 3)%nat) ;;
   update_this (set_parentHeader p) ;;
   c <- toJSON (messageFrames !! (i + 5)%nat) ;;
   update_this (set_content c) ;;
   m <- toJSON (messageFrames !! (i + 4)%nat) ;;
   update_this (set_metadata m) ;;
   update_this (set_blobs (drop (i + 6) messageFrames)))%exec.

(** [Message.prototype._decode]. *)
Definition _decode (messageFrames : list frame) (scheme key : option string)
  : Exec MsgState unit :=
  let scheme := or_string scheme "sha256" in
  let key := or_string key "" in
  (update_this (set_idents []) ;;
   i <- scan_idents messageFrames 0 ;;
   if Z.of_nat (length messageFrames) - Z.of_nat i <? 5 then
     console_error (NotEnoughFrames messageFrames)
   else
     d <- frame_text (messageFrames !! i) ;;
     if negb (String.eqb d DELIMITER) then
       console_error (MissingDelimiter messageFrames)
     else if negb (String.eqb key "") then
       obtainedSignature <- frame_text (messageFrames !! (i + 1)%nat) ;;
       log (CallCreateHmac scheme key) ;;
       hmac <- lift (createHmac scheme key) ;;
       hmac <- hmac_update hmac (messageFrames !! (i + 2)%nat) ;;
       hmac <- hmac_update hmac (messageFrames !! (i + 3)%nat) ;;
       hmac <- hmac_update hmac (messageFrames !! (i + 4)%nat) ;;
       hmac <- hmac_update hmac (messageFrames !! (i + 5)%nat) ;;
       let expectedSignature := hmac_digest_hex hmac in
       let ok := String.eqb expectedSignature obtainedSignature in
       update_this (set_signatureOK (Some ok)) ;;
       if negb ok then
         console_error (IncorrectSignature obtainedSignature expectedSignature)
       else decode_body messageFrames i
     else decode_body messageFrames i)%exec.

(** [Message.prototype._encode]; [new Buffer(text, "utf8")] is the frame
    of the bytes of [text].  The method touches neither [this] nor the
    console; it returns the frames, or throws what [crypto.createHmac]
    throws. *)
Definition _encode (scheme key : option string) (this : Message) : result (list frame) :=
  let scheme := or_string scheme "sha256" in
  let key := or_string key "" in
  let idents := idents this in
  let header := JSON_stringify (header this) in
  let parentHeader := JSON_stringify (parentHeader this) in
  let metadata := JSON_stringify (metadata this) in
  let content := JSON_stringify (content this) in
  let signature :=
    if negb (String.eqb key "") then
      match createHmac scheme key with
      | Normal hmac =>
          let hmac := hmac_append hmac header in
          let hmac := hmac_append hmac parentHeader in
          let hmac := hmac_append hmac metadata in
          let hmac := hmac_append hmac content in
          Normal (hmac_digest_hex hmac)
      | Thrown e => Thrown e
      end
    else Normal "" in
  match signature with
  | Normal signature =>
      Normal (idents ++ [DELIMITER; signature; header; parentHeader; metadata; content])
  | Thrown e => Thrown e
  end.

End Codec.

(** ** The parent prototype *)

(** A function object that can be registered on the socket: a function of
    the caller, or the closure [Socket.prototype.on] builds around a
    listener.  Every evaluation of the function expression yields a new
    object, told apart by [closure]. *)
Inductive fn : Type :=
  | UserFn (h : handler)
  | OnWrapper (closure : nat) (listener : handler).

Definition fn_eqb (f g : fn) : bool :=
  match f, g with
  | UserFn h, UserFn h' => Nat.eqb h h'
  | OnWrapper c h, OnWrapper c' h' => Nat.eqb c c' && Nat.eqb h h'
  | _, _ => false
  end.

(** [zmq.Socket.prototype] as far as the embedded methods of [Socket] call
    it: the listener table of Node's [events.EventEmitter] ([on],
    [removeListener], [removeAllListeners]); [send] is [p_send] below.
    The events the emitter raises about its own table ([newListener],
    [removeListener]) are left out, and so is the emitter's [once]: it
    registers its one-shot wrapper through [this.on], which on a [Socket]
    is [Socket.prototype.on] (see the note on [Socket.prototype.once]
    below). *)
Module Parent.

Record registration : Type := mkRegistration {
  r_event : string;
  r_fn : fn;
}.

(** The registered listeners, in the order they were added. *)
Definition state : Type := list registration.

Definition on (event : string) (listener : fn) : Exec state unit :=
  modify (fun rs => rs ++ [mkRegistration event listener]).

Definition matches (event : string) (listener : fn) (r : registration) : bool :=
  String.eqb (r_event r) event && fn_eqb (r_fn r) listener.

(** Drops the first registration of [listener] for [event]. *)
Fixpoint remove_first (event : string) (listener : fn) (rs : state) : state :=
  match rs with
  | [] => []
  | r :: rest =>
      if matches event listener r then rest
      else r :: remove_first event listener rest
  end.

(** [removeListener(type, listener)]: a [listener] that is not a function
    is refused with a TypeError before the table is looked at; otherwise
    the most recently added registration of [listener] goes.  An absent
    [type] is the event name [undefined], which no listener of this
    embedding is registered for. *)
Definition removeListener (event : option string) (listener : option fn)
  : Exec state unit :=
  match listener with
  | None => throw TypeError
  | Some f =>
      match event with
      | None => ret tt
      | Some e => modify (fun rs => rev (remove_first e f (rev rs)))
      end
  end.

(** [removeAllListeners([type])]. *)
Definition removeAllListeners (event : option string) : Exec state unit :=
  match event with
  | None => modify (fun _ => [])
  | Some e => modify (List.filter (fun r => negb (String.eqb (r_event r) e)))
  end.

(** The listeners [emit(type, ...)] calls. *)
Definition listeners (event : string) (rs : state) : list registration :=
  List.filter (fun r => String.eqb (r_event r) event) rs.

End Parent.

(** ** Sockets *)

(** An entry of [this._jmp._listeners]. *)
Record Listener : Type := mkListener {
  unwrapped : handler;
  wrapped : fn;
}.

(** [this._jmp]. *)
Record Jmp : Type := mkJmp {
  jmp_scheme : option string;
  jmp_key : option string;
  _listeners : list Listener;
}.

Record Socket : Type := mkSocket {
  socketType : string;
  _jmp : Jmp;
  emitter : Parent.state;
}.

(** [new Socket(socketType, scheme, key)]. *)
Definition new_Socket (socketType : string) (scheme key : option string) : Socket :=
  {| socketType := socketType;
     _jmp := {| jmp_scheme := scheme; jmp_key := key; _listeners := [] |};
     emitter := [] |}.

(** What [Socket.prototype.send] is given: a [Message], or frames to pass
    on as they are. *)
Inductive payload : Type :=
  | AMessage (message : Message)
  | RawFrames (frames : list frame).

(** The module-level variable [DEBUG]. *)
Class Globals : Type := { DEBUG : bool }.

Section Sockets.
Context {json : JSONLib} {crypto : CryptoLib} {uuid : UuidLib} {globals : Globals}.

(** The state the methods of [Socket] and [Message.prototype.respond] run
    in: the socket, the state of the uuid generator, the number of
    closures created so far, and the trace. *)
Record World : Type := mkWorld {
  socket : Socket;
  uuid_state : rng;
  closures : nat;
  events : list event;
}.

Definition set_events (es : list event) (w : World) : World :=
  mkWorld (socket w) (uuid_state w) (closures w) es.

Definition set_emitter (rs : Parent.state) (w : World) : World :=
  mkWorld (mkSocket (socketType (socket w)) (_jmp (socket w)) rs)
          (uuid_state w) (closures w) (events w).

Definition set_listeners (ls : list Listener) (w : World) : World :=
  mkWorld (mkSocket (socketType (socket w))
             (mkJmp (jmp_scheme (_jmp (socket w))) (jmp_key (_jmp (socket w))) ls)
             (emitter (socket w)))
          (uuid_state w) (closures w) (events w).

Definition record (e : event) : Exec World unit :=
  modify (fun w => set_events (events w ++ [e]) w).

(** [uuid.v4()]. *)
Definition uuid_v4_call : Exec World string :=
  fun w =>
    let '(id, g) := uuid_v4 (uuid_state w) in
    (Normal id, mkWorld (socket w) g (closures w) (events w)).

(** The evaluation of a function expression: a new function object. *)
Definition new_closure : Exec World nat :=
  fun w => (Normal (closures w),
            mkWorld (socket w) (uuid_state w) (S (closures w)) (events w)).

(** A method of the parent prototype, called on the socket. *)
Definition parent_call {A} (c : Exec Parent.state A) : Exec World A :=
  fun w =>
    match c (emitter (socket w)) with
    | (r, rs) => (r, set_emitter rs w)
    end.

(** A method of [Message] called on [message]: it returns the receiver
    as the method left it; if the method throws, the receiver is
    dropped with the activation that held it. *)
Definition method_call (message : Message) (c : Exec MsgState unit) : Exec World Message :=
  fun w =>
    match c {| this := message; trace := events w |} with
    | (Normal _, s) => (Normal (this s), set_events (trace s) w)
    | (Thrown e, s) => (Thrown e, set_events (trace s) w)
    end.

(** [zmq.Socket.prototype.send]: the frames leave through the socket. *)
Definition p_send (frames : list frame) (flags : option Z) : Exec World unit :=
  record (ZmqSend frames flags).

(** [Socket.prototype.send]. *)
Definition send (message : payload) (flags : option Z) : Exec World unit :=
  match message with
  | AMessage m =>
      ((if DEBUG then record (ConsoleLog m) else ret tt) ;;
       w <- get_state ;;
       frames <- lift (_encode (jmp_scheme (_jmp (socket w)))
                               (jmp_key (_jmp (socket w))) m) ;;
       p_send frames flags)%exec
  | RawFrames frames => p_send frames flags
  end.

(** The body of the closure of [on], called with the frames of a message
    as [arguments]. *)
Definition message_listener (listener : handler) (arguments : list frame)
  : Exec World unit :=
  (let message := new_Message None in
   w <- get_state ;;
   message <- method_call message
                (_decode arguments (jmp_scheme (_jmp (socket w)))
                                   (jmp_key (_jmp (socket w)))) ;;
   record (CallListener listener (WithMessage message)))%exec.

(** A call of a function object with the frames of a message. *)
Definition call_fn (f : fn) (arguments : list frame) : Exec World unit :=
  match f with
  | UserFn h => record (CallListener h (WithFrames arguments))
  | OnWrapper _ listener => message_listener listener arguments
  end.

(** [Socket.prototype.on] (and [addListener], the same function). *)
Definition on (event : string) (listener : handler) : Exec World unit :=
  if negb (String.eqb event "message") then
    parent_call (Parent.on event (UserFn listener))
  else
    (c <- new_closure ;;
     let _listener := {| unwrapped := listener; wrapped := OnWrapper c listener |} in
     modify (fun w => set_listeners (_listeners (_jmp (socket w)) ++ [_listener]) w) ;;
     parent_call (Parent.on event (wrapped _listener)))%exec.

Definition addListener := on.

(** [Socket.prototype.once] is not embedded.  It passes the listener, or
    for ["message"] a closure with the body of [message_listener], to the
    parent's [once], and [EventEmitter.prototype.once] registers its
    one-shot wrapper with [this.on], which is [Socket.prototype.on]: for
    ["message"] the wrapper gets an entry of the table and a closure of
    [on] around it, and at a delivery the closure of [once] is called
    with the [Message] the closure of [on] has decoded, where it expects
    frames.  A [Message] is not a [frame] of this embedding, so that call
    of [_decode] cannot be written here. *)

(** The loop of [removeListener]: the first entry whose [unwrapped] is
    [listener], and the table without it. *)
Fixpoint find_listener (listener : handler) (ls : list Listener)
  : option (Listener * list Listener) :=
  match ls with
  | [] => None
  | l :: rest =>
      if Nat.eqb (unwrapped l) listener then Some (l, rest)
      else
        match find_listener listener rest with
        | Some (found, rest') => Some (found, l :: rest')
        | None => None
        end
  end.

(** [Socket.prototype.removeListener]. *)
Definition removeListener (event : string) (listener : handler) : Exec World unit :=
  if negb (String.eqb event "message") then
    parent_call (Parent.removeListener (Some event) (Some (UserFn listener)))
  else
    (w <- get_state ;;
     match find_listener listener (_listeners (_jmp (socket w))) with
     | Some (_listener, rest) =>
         modify (set_listeners rest) ;;
         parent_call (Parent.removeListener (Some event) (Some (wrapped _listener)))
     | None =>
         parent_call (Parent.removeListener (Some event) (Some (UserFn listener)))
     end)%exec.

(** [Socket.prototype.removeAllListeners]; [event] is [None] when the
    method is called without an argument.  The last line of the source
    applies the parent's [removeListener] to [arguments], which holds no
    listener. *)
Definition removeAllListeners (event : option string) : Exec World unit :=
  ((match event with
    | None => modify (set_listeners [])
    | Some e =>
        if String.eqb e "message" then modify (set_listeners []) else ret tt
    end) ;;
   parent_call (Parent.removeListener event None))%exec.

(** [emit(event, ...frames)] of the parent: the listeners registered for
    [event] when the call starts are called in order, and what one of
    them throws ends the call.  An ["error"] event that has no listener
    is thrown by the emitter itself. *)
Fixpoint call_listeners (rs : list Parent.registration) (frames : list frame)
  : Exec World unit :=
  match rs with
  | [] => ret tt
  | r :: rest =>
      (call_fn (Parent.r_fn r) frames ;;
       call_listeners rest frames)%exec
  end.

Definition emit (event : string) (frames : list frame) : Exec World unit :=
  (w <- get_state ;;
   match Parent.listeners event (emitter (socket w)) with
   | [] => if String.eqb event "error" then throw UnhandledError else ret tt
   | rs => call_listeners rs frames
   end)%exec.

(** [Message.prototype.respond]; [socket_send] is the [send] method of
    the [socket] argument. *)
Definition respond (socket_send : Message -> Exec World unit)
    (messageType : string) (content metadata : option value)
    (protocolVersion : option string) (this : Message) : Exec World unit :=
  (let response := new_Message None in
   let response := set_idents (idents this) response in
   msg_id <- uuid_v4_call ;;
   username <- get_prop "username" (Some (header this)) ;;
   session <- get_prop "session" (Some (header this)) ;;
   let response :=
     set_header (VObj (object_literal
                         [("msg_id", Some (VStr msg_id));
                          ("username", username);
                          ("session", session);
                          ("msg_type", Some (VStr messageType))])) response in
   version <- (if truthy (header this)
               then get_prop "version" (Some (header this))
               else ret None) ;;
   let response :=
     match version with
     | Some v => if truthy v then set_header (set_prop "version" v (header response)) response
                 else response
     | None => response
     end in
   let response :=
     match protocolVersion with
     | Some v => if negb (String.eqb v "")
                 then set_header (set_prop "version" (VStr v) (header response)) response
                 else response
     | None => response
     end in
   let response := set_parentHeader (header this) response in
   let response := set_content (or_value content empty_object) response in
   let response := set_metadata (or_value metadata empty_object) response in
   socket_send response)%exec.

End Sockets.

(** ** A reference platform *)

(** Instances of the library interfaces on which the definitions above can
    be evaluated: a JSON printer and parser for [value], a keyed checksum
    in the place of the HMAC, and a counter in the place of the uuid
    generator.  The theorems below are proved for every platform; this one
    supplies the concrete runs. *)
Module Reference.

Definition quote : ascii := "034"%char.
Definition backslash : ascii := "092"%char.

Fixpoint escape (s : string) : string :=
  match s with
  | EmptyString => EmptyString
  | String c rest =>
      if Ascii.eqb c quote || Ascii.eqb c backslash
      then String backslash (String c (escape rest))
      else String c (escape rest)
  end.

Definition quoted (s : string) : string :=
  String quote (escape s +:+ String quote EmptyString).

Fixpoint join (sep : string) (parts : list string) : string :=
  match parts with
  | [] => EmptyString
  | [p] => p
  | p :: rest => p +:+ sep +:+ join sep rest
  end.

Definition digit_char (d : Z) : ascii := ascii_of_nat (48 + Z.to_nat d).

(** The decimal digits of [n], with [fuel] bounding their number. *)
Fixpoint digits (fuel : nat) (n : Z) (acc : string) : string :=
  match fuel with
  | O => acc
  | S fuel' =>
      let acc' := String (digit_char (n mod 10)) acc in
      if n / 10 =? 0 then acc' else digits fuel' (n / 10) acc'
  end.

Definition number_text (n : Z) : string :=
  if n <? 0 then String "-"%char (digits (Z.to_nat (Z.abs n)) (Z.abs n) EmptyString)
  else digits (S (Z.to_nat n)) n EmptyString.

(** [JSON.stringify] on a [value]. *)
Fixpoint stringify (v : value) : string :=
  match v with
  | VNull => "null"
  | VBool true => "true"
  | VBool false => "false"
  | VNum n => number_text n
  | VStr s => quoted s
  | VArr elems => "[" +:+ join "," (map stringify elems) +:+ "]"
  | VObj props =>
      "{" +:+ join "," (map (fun p => quoted (fst p) +:+ ":" +:+ stringify (snd p)) props)
          +:+ "}"
  end.

Definition is_space (c : ascii) : bool :=
  Ascii.eqb c " "%char || Ascii.eqb c "010"%char || Ascii.eqb c "013"%char
  || Ascii.eqb c "009"%char.

Fixpoint skip_spaces (s : string) : string :=
  match s with
  | String c rest => if is_space c then skip_spaces rest else s
  | EmptyString => s
  end.

(** [s] without the prefix [p], if it starts with it. *)
Fixpoint strip_prefix (p s : string) : option string :=
  match p, s with
  | EmptyString, _ => Some s
  | String a p', String b s' => if Ascii.eqb a b then strip_prefix p' s' else None
  | String _ _, EmptyString => None
  end.

(** The text of a string literal after its opening quote, and the rest. *)
Fixpoint parse_string (s : string) : option (string * string) :=
  match s with
  | EmptyString => None
  | String c rest =>
      if Ascii.eqb c quote then Some (EmptyString, rest)
      else if Ascii.eqb c backslash then
        match rest with
        | String e rest' =>
            if Ascii.eqb e quote || Ascii.eqb e backslash then
              match parse_string rest' with
              | Some (text, r) => Some (String e text, r)
              | None => None
              end
            else None
        | EmptyString => None
        end
      else
        match parse_string rest with
        | Some (text, r) => Some (String c text, r)
        | None => None
        end
  end.

Definition digit_value (c : ascii) : option Z :=
  let n := Z.of_nat (nat_of_ascii c) in
  if (48 <=? n) && (n <=? 57) then Some (n - 48) else None.

(** The digits at the head of [s], read after the digits worth [acc]. *)
Fixpoint parse_digits (s : string) (acc : Z) (seen : bool) : option (Z * string) :=
  match s with
  | String c rest =>
      match digit_value c with
      | Some d => parse_digits rest (10 * acc + d) true
      | None => if seen then Some (acc, s) else None
      end
  | EmptyString => if seen then Some (acc, s) else None
  end.

Fixpoint parse_value (fuel : nat) (s : string) : option (value * string) :=
  match fuel with
  | O => None
  | S fuel' =>
      match skip_spaces s with
      | EmptyString => None
      | String c rest =>
          if Ascii.eqb c "n"%char then
            r ← strip_prefix "ull" rest; Some (VNull, r)
          else if Ascii.eqb c "t"%char then
            r ← strip_prefix "rue" rest; Some (VBool true, r)
          else if Ascii.eqb c "f"%char then
            r ← strip_prefix "alse" rest; Some (VBool false, r)
          else if Ascii.eqb c quote then
            '(text, r) ← parse_string rest; Some (VStr text, r)
          else if Ascii.eqb c "-"%char then
            '(n, r) ← parse_digits rest 0 false; Some (VNum (- n), r)
          else if Ascii.eqb c "["%char then
            match skip_spaces rest with
            | String "]"%char r => Some (VArr [], r)
            | _ => parse_elements fuel' rest []
            end
          else if Ascii.eqb c "{"%char then
            match skip_spaces rest with
            | String "}"%char r => Some (VObj [], r)
            | _ => parse_members fuel' rest []
            end
          else
            '(n, r) ← parse_digits (String c rest) 0 false; Some (VNum n, r)
      end
  end
with parse_elements (fuel : nat) (s : string) (acc : list value)
  : option (value * string) :=
  match fuel with
  | O => None
  | S fuel' =>
      '(v, r) ← parse_value fuel' s;
      match skip_spaces r with
      | String ","%char r' => parse_elements fuel' r' (acc ++ [v])
      | String "]"%char r' => Some (VArr (acc ++ [v]), r')
      | _ => None
      end
  end
with parse_members (fuel : nat) (s : string) (acc : list (string * value))
  : option (value * string) :=
  match fuel with
  | O => None
  | S fuel' =>
      match skip_spaces s with
      | String c rest =>
          if Ascii.eqb c quote then
            '(k, r) ← parse_string rest;
            match skip_spaces r with
            | String ":"%char r1 =>
                '(v, r2) ← parse_value fuel' r1;
                match skip_spaces r2 with
                | String ","%char r3 => parse_members fuel' r3 (assign_prop k v acc)
                | String "}"%char r3 => Some (VObj (assign_prop k v acc), r3)
                | _ => None
                end
            | _ => None
            end
          else None
      | EmptyString => None
      end
  end.

(** [JSON.parse]: a value followed by nothing but spaces. *)
Definition parse (text : string) : option value :=
  '(v, r) ← parse_value (2 * String.length text + 2) text;
  match skip_spaces r with
  | EmptyString => Some v
  | String _ _ => None
  end.

Definition json : JSONLib :=
  {| JSON_stringify := stringify; JSON_parse := parse |}.

(** The 32-bit FNV-1a hash of a text. *)
Fixpoint fnv1a (s : string) (h : Z) : Z :=
  match s with
  | EmptyString => h
  | String c rest =>
      fnv1a rest ((Z.lxor h (Z.of_nat (nat_of_ascii c)) * 16777619) mod 2 ^ 32)
  end.

Definition hex_char (d : Z) : ascii :=
  if d <? 10 then ascii_of_nat (48 + Z.to_nat d) else ascii_of_nat (87 + Z.to_nat d).

Fixpoint hex (width : nat) (n : Z) (acc : string) : string :=
  match width with
  | O => acc
  | S w => hex w (n / 16) (String (hex_char (n mod 16)) acc)
  end.

(** A keyed checksum of [data], eight hexadecimal digits. *)
Definition checksum (scheme key data : string) : string :=
  hex 8 (fnv1a (scheme +:+ ":" +:+ key +:+ ":" +:+ data) 2166136261) EmptyString.

(** The hashes the reference platform knows. *)
Definition hashes : list string := ["md5"; "sha1"; "sha256"; "sha512"].

Definition crypto : CryptoLib :=
  {| known_scheme := fun scheme => existsb (String.eqb scheme) hashes;
     hmac_digest := checksum |}.

(** Identifiers numbered in the order they are drawn. *)
Definition uuid : UuidLib :=
  {| rng := nat; uuid_v4 := fun n => ("uuid-" +:+ number_text (Z.of_nat n), S n) |}.

Definition globals : Globals := {| DEBUG := false |}.


End Reference.

(** ** Sample data *)

(** A request as a client sends it, a router socket, and the state of a
    run of [_decode] on a new message. *)
Module Sample.

Definition request_header : value :=
  VObj [("msg_id", VStr "a"); ("username", VStr "u"); ("session", VStr "s");
        ("msg_type", VStr "execute_request"); ("version", VStr "5.0")].

Definition request : Message :=
  {| idents := ["client-1"];
     header := request_header;
     parentHeader := empty_object;
     metadata := empty_object;
     content := VObj [("code", VStr "1+1")];
     blobs := [];
     signatureOK := None |}.




Definition fresh : MsgState := {| this := new_Message None; trace := [] |}.

Definition router (key : option string) : @World Reference.uuid :=
  @mkWorld Reference.uuid (new_Socket "router" None key) 0%nat 0%nat [].

(** A socket with the key [k] and a scheme that is not a hash. *)
Definition odd_router : @World Reference.uuid :=
  @mkWorld Reference.uuid (new_Socket "router" (Some "rot13") (Some "k")) 0%nat 0%nat [].

(** A new message after an aborted decode: only [idents], and
    [signatureOK] after a mismatch, are set. *)
Definition aborted_message (ids : list frame) (ok : option bool) : Message :=
  mkMessage ids empty_object empty_object empty_object empty_object [] ok.

(** The identity of a listener of the caller. *)
Definition on_request : handler := 7%nat.

End Sample.

(** ** Vocabulary of the statements *)

(** Whether some frame is the delimiter. *)
Definition has_delimiter (frames : list frame) : bool :=
  existsb (fun part => String.eqb (toString part) DELIMITER) frames.

(** The frames before the first delimiter; all of them if there is none. *)
Fixpoint before_delimiter (frames : list frame) : list frame :=
  match frames with
  | [] => []
  | part :: rest =>
      if String.eqb (toString part) DELIMITER then [] else part :: before_delimiter rest
  end.

(** The frames after the first delimiter; none if there is no delimiter. *)
Fixpoint after_delimiter (frames : list frame) : list frame :=
  match frames with
  | [] => []
  | part :: rest =>
      if String.eqb (toString part) DELIMITER then rest else after_delimiter rest
  end.



(** A value [JSON.parse] gives back from its [JSON.stringify] text. *)
Definition serializable `{JSONLib} (v : value) : Prop :=
  JSON_parse (JSON_stringify v) = Some v.

(** Whether a trace entry is a line of [console.error]. *)
Definition is_console_error (e : event) : bool :=
  match e with ConsoleError _ => true | _ => false end.

(** Whether a trace entry is a call of [crypto.createHmac]. *)
Definition is_create_hmac (e : event) : bool :=
  match e with CallCreateHmac _ _ => true | _ => false end.

(** The bytes the signature covers: the header, parent header, metadata
    and content frames, in that order. *)
Definition signed_text (header parentHeader metadata content : frame) : string :=
  ((header +:+ parentHeader) +:+ metadata) +:+ content.

(** The trace entries of the parsed body frames, in the order [_decode]
    parses them. *)
Definition body_parsed (h p md c : frame) : list event :=
  [CallJSONParse h; CallJSONParse p; CallJSONParse c; CallJSONParse md].

(** Whether a trace entry is a call of [JSON.parse] or [crypto.createHmac]. *)
Definition is_library_call (e : event) : bool :=
  match e with
  | CallJSONParse _ => true
  | CallCreateHmac _ _ => true
  | _ => false
  end.

(** The ways a run of [_decode] on [frames] can end, from the state [s],
    with [pre] the frames before the first delimiter: the two aborts that
    can happen, an exception, or completion. *)
Inductive decode_outcome (pre frames : list frame) (scheme key : string) (s : MsgState)
  : result unit -> MsgState -> Prop :=
  | AbortedFrameCount :
      decode_outcome pre frames scheme key s (Normal tt)
        {| this := set_idents pre (this s);
           trace := trace s ++ [ConsoleError (NotEnoughFrames frames)] |}
  | AbortedSignature (obtained expected : string) :
      decode_outcome pre frames scheme key s (Normal tt)
        {| this := set_signatureOK (Some false) (set_idents pre (this s));
           trace := trace s ++ [CallCreateHmac scheme key;
                                ConsoleError (IncorrectSignature obtained expected)] |}
  | Failed (e : exn) (s' : MsgState) (calls : list event) :
      idents (this s') = pre ->
      signatureOK (this s') = signatureOK (this s)
        \/ signatureOK (this s') = Some true ->
      trace s' = trace s ++ calls ->
      forallb is_library_call calls = true ->
      decode_outcome pre frames scheme key s (Thrown e) s'
  | Completed (vh vp vm vc : value) (blobs : list frame) (ok : option bool)
      (hmac : list event) (h p md c : frame) :
      forallb is_library_call hmac = true ->
      decode_outcome pre frames scheme key s (Normal tt)
        {| this := mkMessage pre vh vp vm vc blobs ok;
           trace := trace s ++ hmac ++ body_parsed h p md c |}.

(** The receiver with its [idents] replaced, the rest of the state kept. *)
Definition with_idents (ids : list frame) (s : MsgState) : MsgState :=
  {| this := set_idents ids (this s); trace := trace s |}.

(** The state after one more trace entry. *)
Definition logged (e : event) (s : MsgState) : MsgState :=
  {| this := this s; trace := trace s ++ [e] |}.

(** ** Programs over a socket *)

(** A call of an embedded method of [Socket] by the program, or a
    delivery of frames by the parent. *)
Inductive call : Type :=
  | CallOn (event : string) (listener : handler)
  | CallRemoveListener (event : string) (listener : handler)
  | CallRemoveAllListeners (event : option string)
  | CallSend (message : payload) (flags : option Z)
  | Deliver (event : string) (frames : list frame).

Section Programs.
Context {json : JSONLib} {crypto : CryptoLib} {uuid : UuidLib} {globals : Globals}.

Definition run_call (c : call) : Exec World unit :=
  match c with
  | CallOn event listener => on event listener
  | CallRemoveListener event listener => removeListener event listener
  | CallRemoveAllListeners event => removeAllListeners event
  | CallSend message flags => send message flags
  | Deliver event frames => emit event frames
  end.

(** The world after a sequence of calls.  A call that throws leaves the
    world as the exception found it, and the next call runs on it. *)
Fixpoint run_calls (cs : list call) (w : World) : World :=
  match cs with
  | [] => w
  | c :: rest => run_calls rest (snd (run_call c w))
  end.

End Programs.

(** The table [_jmp._listeners] agrees with the registrations of the
    parent, on a socket that has made [made] closures so far: every entry
    holds a closure of [on] around its listener, registered for
    ["message"] on the parent, and no two entries hold the same closure. *)
Definition consistent (sk : Socket) (made : nat) : Prop :=
  (forall l, In l (_listeners (_jmp sk)) ->
     (exists c, wrapped l = OnWrapper c (unwrapped l) /\ (c < made)%nat)
     /\ In (Parent.mkRegistration "message" (wrapped l)) (emitter sk))
  /\ List.NoDup (List.map wrapped (_listeners (_jmp sk))).

(** * The codec *)

(** Unfolds the steps of a run up to the next library call or branch. *)
Ltac step :=
  cbv beta iota delta
    [bind ret throw lift modify update_this console_error log frame_text
     hmac_update toJSON toString];
  simpl.

Section CodecFacts.
Context {json : JSONLib} {crypto : CryptoLib}.

Lemma frames_split (frames : list frame) :
  frames = before_delimiter frames
           ++ (if has_delimiter frames then DELIMITER :: after_delimiter frames else []).
Proof.
  induction frames as [|part rest IH]; [reflexivity|].
  unfold has_delimiter in *. simpl.
  destruct (String.eqb (toString part) DELIMITER) eqn:E; simpl.
  - apply String.eqb_eq in E. unfold toString in E. now subst.
  - f_equal. exact IH.
Qed.

Lemma before_delimiter_clean (frames : list frame) :
  has_delimiter (before_delimiter frames) = false.
Proof.
  induction frames as [|part rest IH]; [reflexivity|].
  simpl. destruct (String.eqb (toString part) DELIMITER) eqn:E; [reflexivity|].
  unfold has_delimiter in *. simpl. now rewrite E.
Qed.

Lemma before_delimiter_app (ids rest : list frame) :
  has_delimiter ids = false ->
  before_delimiter (ids ++ DELIMITER :: rest) = ids.
Proof.
  unfold has_delimiter. induction ids as [|part ids IH]; simpl; intros Hno.
  - reflexivity.
  - apply orb_false_iff in Hno as [E Hno]. rewrite E. f_equal. auto.
Qed.

Lemma before_delimiter_none (frames : list frame) :
  has_delimiter frames = false -> before_delimiter frames = frames.
Proof.
  unfold has_delimiter. induction frames as [|part rest IH]; simpl; intros Hno.
  - reflexivity.
  - apply orb_false_iff in Hno as [E Hno]. rewrite E. f_equal. auto.
Qed.

(** Either the guard of line 173 stops the run, or the delimiter is
    followed by four frames or more. *)
Lemma frames_cases (frames : list frame) :
  (Z.of_nat (length frames) - Z.of_nat (length (before_delimiter frames)) <? 5) = true
  \/ exists (sig h p md : frame) (tail : list frame),
       frames = before_delimiter frames ++ DELIMITER :: sig :: h :: p :: md :: tail.
Proof.
  pose proof (frames_split frames) as E.
  pose proof (f_equal length E) as L. rewrite length_app in L.
  destruct (has_delimiter frames).
  - destruct (after_delimiter frames) as [|sig [|h [|p [|md tail]]]]; simpl in L;
      try (left; apply Z.ltb_lt; lia).
    right. eauto 10.
  - simpl in L. left. apply Z.ltb_lt. lia.
Qed.

(** The loop of [_decode] stops at the first delimiter, having pushed the
    frames before it. *)
Lemma scan_idents_spec (rest : list frame) (i : nat) (s : MsgState) :
  scan_idents rest i s
  = (Normal (i + length (before_delimiter rest))%nat,
     with_idents (idents (this s) ++ before_delimiter rest) s).
Proof.
  revert i s. induction rest as [|part rest IH]; intros i s; simpl.
  - unfold ret, with_idents. rewrite Nat.add_0_r, app_nil_r.
    destruct s as [[] ?]; reflexivity.
  - destruct (String.eqb (toString part) DELIMITER) eqn:E.
    + unfold ret, with_idents. simpl. rewrite Nat.add_0_r, app_nil_r.
      destruct s as [[] ?]; reflexivity.
    + unfold bind, update_this, modify. rewrite IH. simpl.
      unfold with_idents. simpl. rewrite <- app_assoc. simpl.
      f_equal. f_equal. lia.
Qed.

Lemma lookup_after (ids rest : list frame) (k : nat) :
  (ids ++ rest) !! (length ids + k)%nat = rest !! k.
Proof. induction ids as [|x ids IH]; simpl; auto. Qed.

Lemma drop_after (ids rest : list frame) (k : nat) :
  drop (length ids + k) (ids ++ rest) = drop k rest.
Proof. induction ids as [|x ids IH]; simpl; auto. Qed.

Lemma key_absent (key : option string) :
  truthy_str key = false -> or_string key "" = "".
Proof.
  destruct key as [k|]; simpl; [|reflexivity].
  destruct (String.eqb k "") eqn:E; [reflexivity|discriminate].
Qed.

Lemma key_present (key : option string) :
  truthy_str key = true ->
  String.eqb (or_string key "") "" = false /\ key = Some (or_string key "").
Proof.
  destruct key as [k|]; simpl; [|discriminate].
  destruct (String.eqb k "") eqn:E; [discriminate|]. now rewrite E.
Qed.

(** [_decode] after its loop: the guard on the number of frames decides. *)
Lemma decode_guard_fails (frames : list frame) (scheme key : option string) (s : MsgState) :
  (Z.of_nat (length frames) - Z.of_nat (length (before_delimiter frames)) <? 5) = true ->
  _decode frames scheme key s
  = (Normal tt,
     logged (ConsoleError (NotEnoughFrames frames))
            (with_idents (before_delimiter frames) s)).
Proof.
  intros Hguard. unfold _decode.
  unfold bind at 1. unfold update_this at 1. unfold modify at 1.
  unfold bind at 1. rewrite scan_idents_spec. simpl. rewrite Hguard.
  reflexivity.
Qed.

(** With at least four frames after the delimiter the guard lets the run
    through, and the frame at the index the loop stopped at is the
    delimiter: the second check of [_decode] never fires. *)
Lemma decode_guard_passes (ids : list frame) (sig h p md : frame) (tail : list frame)
    (scheme key : option string) (s : MsgState) :
  has_delimiter ids = false ->
  let frames := ids ++ DELIMITER :: sig :: h :: p :: md :: tail in
  let i := length ids in
  _decode frames scheme key s
  = (if negb (String.eqb (or_string key "") "") then
       (log (CallCreateHmac (or_string scheme "sha256") (or_string key "")) ;;
        hmac <- lift (createHmac (or_string scheme "sha256") (or_string key "")) ;;
        hmac <- hmac_update (hmac_append (hmac_append (hmac_append hmac h) p) md)
                            (hd_error tail) ;;
        update_this (set_signatureOK (Some (String.eqb (hmac_digest_hex hmac) sig))) ;;
        if negb (String.eqb (hmac_digest_hex hmac) sig) then
          console_error (IncorrectSignature sig (hmac_digest_hex hmac))
        else decode_body frames i)%exec
     else decode_body frames i) (with_idents ids s).
Proof.
  intros Hids frames i. unfold _decode.
  unfold bind at 1. unfold update_this at 1. unfold modify at 1.
  unfold bind at 1. rewrite scan_idents_spec. simpl.
  subst frames i. rewrite (before_delimiter_app _ _ Hids).
  replace (Z.of_nat (length (ids ++ DELIMITER :: sig :: h :: p :: md :: tail))
           - Z.of_nat (length ids) <? 5) with false
    by (symmetry; apply Z.ltb_ge; rewrite length_app; simpl; lia).
  rewrite <- (Nat.add_0_r (length ids)) at 1.
  unfold bind at 1. rewrite lookup_after. simpl.
  destruct (negb (String.eqb (or_string key "") "")); [|reflexivity].
  unfold bind at 1. rewrite lookup_after. simpl.
  unfold bind at 1 6. unfold log at 1 2, modify at 1 2.
  unfold bind at 1 5. unfold lift at 1 2.
  destruct (createHmac _ _) as [hmac|e]; [|reflexivity].
  rewrite !lookup_after. simpl.
  destruct tail as [|c blobs]; reflexivity.
Qed.

(** The body frames parse: the five assignments of lines 208-212. *)
Lemma decode_body_parsed (ids : list frame) (sig h p md c : frame) (blobs : list frame)
    (s : MsgState) (vh vp vm vc : value) :
  JSON_parse h = Some vh -> JSON_parse p = Some vp ->
  JSON_parse md = Some vm -> JSON_parse c = Some vc ->
  decode_body (ids ++ DELIMITER :: sig :: h :: p :: md :: c :: blobs) (length ids) s
  = (Normal tt,
     {| this := mkMessage (idents (this s)) vh vp vm vc blobs (signatureOK (this s));
        trace := trace s ++ [CallJSONParse h; CallJSONParse p;
                             CallJSONParse c; CallJSONParse md] |}).
Proof.
  intros Hh Hp Hm Hc. unfold decode_body.
  rewrite !lookup_after, drop_after. step.
  rewrite Hh, Hp, Hc, Hm. simpl.
  rewrite <- !app_assoc. reflexivity.
Qed.

(** A body frame that is not JSON: [JSON.parse] throws out of [_decode],
    which has not touched [idents] or [signatureOK] since. *)
Lemma decode_body_unparsable (ids : list frame) (sig h p md c : frame)
    (blobs : list frame) (s : MsgState) :
  JSON_parse h = None \/ JSON_parse p = None \/
  JSON_parse md = None \/ JSON_parse c = None ->
  let '(r, s') :=
    decode_body (ids ++ DELIMITER :: sig :: h :: p :: md :: c :: blobs) (length ids) s in
  r = Thrown SyntaxError /\ idents (this s') = idents (this s)
  /\ signatureOK (this s') = signatureOK (this s).
Proof.
  intros Hbad. unfold decode_body.
  rewrite !lookup_after, drop_after. step.
  destruct (JSON_parse h); simpl; [|auto].
  destruct (JSON_parse p); simpl; [|auto].
  destruct (JSON_parse c); simpl; [|auto].
  destruct (JSON_parse md); simpl; [|auto].
  destruct Hbad as [?|[?|[?|?]]]; discriminate.
Qed.

(** Exactly four frames after the delimiter: the content frame is
    [undefined], and [toJSON] throws on it once the header and the parent
    header are parsed. *)
Lemma decode_body_short (ids : list frame) (sig h p md : frame) (s : MsgState) :
  let '(r, s') :=
    decode_body (ids ++ [DELIMITER; sig; h; p; md]) (length ids) s in
  (exists e, r = Thrown e) /\ idents (this s') = idents (this s)
  /\ signatureOK (this s') = signatureOK (this s)
  /\ (forall vh vp, JSON_parse h = Some vh -> JSON_parse p = Some vp ->
        r = Thrown TypeError
        /\ s' = {| this := set_parentHeader vp (set_header vh (this s));
                   trace := trace s ++ [CallJSONParse h; CallJSONParse p] |}).
Proof.
  unfold decode_body. rewrite !lookup_after. step.
  destruct (JSON_parse h) as [vh|]; simpl;
    [destruct (JSON_parse p) as [vp|]; simpl|];
    (split; [eauto|split; [reflexivity|split; [reflexivity|]]]);
    intros vh' vp' Hh Hp; try discriminate.
  injection Hh as <-. injection Hp as <-.
  rewrite <- app_assoc. split; reflexivity.
Qed.

(** Fewer than four frames after the delimiter: the guard of line 173
    stops the run. *)
Lemma decode_too_few_frames (ids rest : list frame) (scheme key : option string)
    (s : MsgState) :
  has_delimiter ids = false -> (length rest < 4)%nat ->
  _decode (ids ++ DELIMITER :: rest) scheme key s
  = (Normal tt,
     {| this := set_idents ids (this s);
        trace := trace s ++ [ConsoleError (NotEnoughFrames (ids ++ DELIMITER :: rest))] |}).
Proof.
  intros Hids Hlen. rewrite decode_guard_fails.
  - now rewrite (before_delimiter_app _ _ Hids).
  - rewrite (before_delimiter_app _ _ Hids). apply Z.ltb_lt.
    rewrite length_app. simpl. lia.
Qed.

(** Without a delimiter the loop runs to the end of the frames, and the
    guard of line 173 stops the run. *)
Lemma decode_no_delimiter (frames : list frame) (scheme key : option string)
    (s : MsgState) :
  has_delimiter frames = false ->
  _decode frames scheme key s
  = (Normal tt,
     {| this := set_idents frames (this s);
        trace := trace s ++ [ConsoleError (NotEnoughFrames frames)] |}).
Proof.
  intros Hno. rewrite decode_guard_fails.
  - now rewrite (before_delimiter_none _ Hno).
  - rewrite (before_delimiter_none _ Hno). apply Z.ltb_lt. lia.
Qed.

(** C9. A frame sequence in which no frame is the delimiter: [_decode]
    returns normally (nothing is thrown) after one [console.error] line,
    the frame-count one; [header], [parentHeader], [metadata], [content],
    [blobs] and [signatureOK] are what they were, so on a new message they
    are the empty objects, the empty list and [null]; the trace gains no
    call of [JSON.parse] or [crypto.createHmac]. *)
Theorem decode_without_delimiter (frames : list frame) (scheme key : option string)
    (s : MsgState) :
  has_delimiter frames = false ->
  _decode frames scheme key s
  = (Normal tt,
     {| this := set_idents frames (this s);
        trace := trace s ++ [ConsoleError (NotEnoughFrames frames)] |})
  /\ this (snd (_decode frames scheme key {| this := new_Message None; trace := trace s |}))
     = mkMessage frames empty_object empty_object empty_object empty_object [] None
  /\ List.filter is_library_call (trace (snd (_decode frames scheme key s)))
     = List.filter is_library_call (trace s).
Proof.
  intros Hno. rewrite !(decode_no_delimiter _ _ _ _ Hno). simpl. repeat split.
  rewrite List.filter_app. simpl. apply app_nil_r.
Qed.

Lemma digest_of_updates (scheme key : string) (h p md c : frame) :
  hmac_digest_hex
    (hmac_append (hmac_append (hmac_append (hmac_append (mkHmac scheme key "") h) p) md) c)
  = hmac_digest scheme key (signed_text h p md c).
Proof. reflexivity. Qed.

Lemma createHmac_known (scheme key : string) :
  known_scheme scheme = true -> createHmac scheme key = Normal (mkHmac scheme key "").
Proof. intros Hknown. unfold createHmac. now rewrite Hknown. Qed.

Lemma createHmac_unknown (scheme key : string) :
  known_scheme scheme = false -> createHmac scheme key = Thrown CryptoError.
Proof. intros Hunknown. unfold createHmac. now rewrite Hunknown. Qed.

(** What [_encode] returns or throws, by cases on the key and the scheme. *)
Lemma encode_unfold (scheme key : option string) (m : Message) :
  _encode scheme key m
  = if truthy_str key && negb (known_scheme (or_string scheme "sha256"))
    then Thrown CryptoError
    else Normal
           (idents m
            ++ [DELIMITER;
                if truthy_str key
                then hmac_digest (or_string scheme "sha256") (or_string key "")
                       (signed_text (JSON_stringify (header m))
                          (JSON_stringify (parentHeader m))
                          (JSON_stringify (metadata m)) (JSON_stringify (content m)))
                else "";
                JSON_stringify (header m); JSON_stringify (parentHeader m);
                JSON_stringify (metadata m); JSON_stringify (content m)]).
Proof.
  unfold _encode, createHmac.
  destruct key as [k|]; simpl; [|reflexivity].
  destruct (String.eqb k "") eqn:E; simpl; rewrite ?E; simpl; [reflexivity|].
  destruct (known_scheme (or_string scheme "sha256")); reflexivity.
Qed.

(** [_encode] returns whenever [crypto.createHmac] does: without a key,
    or with a scheme that names a hash. *)
Lemma encode_returns (scheme key : option string) (m : Message) :
  (truthy_str key = true -> known_scheme (or_string scheme "sha256") = true) ->
  _encode scheme key m
  = Normal
      (idents m
       ++ [DELIMITER;
           if truthy_str key
           then hmac_digest (or_string scheme "sha256") (or_string key "")
                  (signed_text (JSON_stringify (header m))
                     (JSON_stringify (parentHeader m))
                     (JSON_stringify (metadata m)) (JSON_stringify (content m)))
           else "";
           JSON_stringify (header m); JSON_stringify (parentHeader m);
           JSON_stringify (metadata m); JSON_stringify (content m)]).
Proof.
  intros Hknown. rewrite encode_unfold.
  destruct (truthy_str key); [rewrite Hknown by reflexivity|]; reflexivity.
Qed.

(** C7. For a scheme that names a hash of the platform (so that the HMAC
    exists when a key is given), [_encode] returns [idents] followed by
    exactly six frames: the delimiter, the signature, and the JSON texts
    of [header], [parentHeader], [metadata] and [content] in that order.
    The signature is the empty string without a key, and with a non-empty
    key the hex digest of the HMAC of the four texts in that order;
    [blobs] has no part in the result. *)
Theorem encode_frames (scheme key : option string) (m : Message) :
  (truthy_str key = true -> known_scheme (or_string scheme "sha256") = true) ->
  let h := JSON_stringify (header m) in
  let p := JSON_stringify (parentHeader m) in
  let md := JSON_stringify (metadata m) in
  let c := JSON_stringify (content m) in
  let signature :=
    if truthy_str key
    then hmac_digest (or_string scheme "sha256") (or_string key "") (signed_text h p md c)
    else "" in
  _encode scheme key m = Normal (idents m ++ [DELIMITER; signature; h; p; md; c])
  /\ (forall frames, _encode scheme key m = Normal frames ->
        length (drop (length (idents m)) frames) = 6%nat)
  /\ (forall b, _encode scheme key (set_blobs b m) = _encode scheme key m).
Proof.
  intros Hknown h p md c signature. subst h p md c signature.
  split; [now apply encode_returns|]. split; [|reflexivity].
  intros frames. rewrite (encode_returns _ _ _ Hknown). intros [= <-].
  rewrite <- (Nat.add_0_r (length (idents m))), drop_after. reflexivity.
Qed.

(** Five frames or more after the delimiter and no key: the run goes
    from the loop straight to the body frames. *)
Lemma decode_unsigned (ids : list frame) (sig h p md c : frame) (blobs : list frame)
    (scheme key : option string) (s : MsgState) :
  has_delimiter ids = false -> truthy_str key = false ->
  let frames := ids ++ DELIMITER :: sig :: h :: p :: md :: c :: blobs in
  _decode frames scheme key s = decode_body frames (length ids) (with_idents ids s).
Proof.
  intros Hids Hkey frames. subst frames.
  rewrite (decode_guard_passes ids sig h p md (c :: blobs) scheme key s Hids).
  rewrite (key_absent _ Hkey). reflexivity.
Qed.

(** Four frames or more after the delimiter, a key and a scheme that is
    not a hash of the platform: [crypto.createHmac] throws out of
    [_decode], which has set [idents] and nothing else. *)
Lemma decode_unknown_scheme (ids : list frame) (sig h p md : frame) (tail : list frame)
    (scheme key : option string) (s : MsgState) :
  has_delimiter ids = false -> truthy_str key = true ->
  known_scheme (or_string scheme "sha256") = false ->
  _decode (ids ++ DELIMITER :: sig :: h :: p :: md :: tail) scheme key s
  = (Thrown CryptoError,
     {| this := set_idents ids (this s);
        trace := trace s ++ [CallCreateHmac (or_string scheme "sha256")
                                            (or_string key "")] |}).
Proof.
  intros Hids Hkey Hunknown.
  rewrite (decode_guard_passes ids sig h p md tail scheme key s Hids).
  destruct (key_present _ Hkey) as [Hk _]. rewrite Hk. simpl.
  rewrite (createHmac_unknown _ _ Hunknown). reflexivity.
Qed.

(** Five frames or more after the delimiter, a key and a scheme that
    names a hash: the signature is checked before anything is parsed. *)
Lemma decode_signed (ids : list frame) (sig h p md c : frame) (blobs : list frame)
    (scheme key : option string) (s : MsgState) :
  has_delimiter ids = false -> truthy_str key = true ->
  known_scheme (or_string scheme "sha256") = true ->
  let frames := ids ++ DELIMITER :: sig :: h :: p :: md :: c :: blobs in
  let scheme' := or_string scheme "sha256" in
  let key' := or_string key "" in
  let expected := hmac_digest scheme' key' (signed_text h p md c) in
  _decode frames scheme key s
  = if String.eqb expected sig then
      decode_body frames (length ids)
        {| this := set_signatureOK (Some true) (set_idents ids (this s));
           trace := trace s ++ [CallCreateHmac scheme' key'] |}
    else
      (Normal tt,
       {| this := set_signatureOK (Some false) (set_idents ids (this s));
          trace := trace s ++ [CallCreateHmac scheme' key';
                               ConsoleError (IncorrectSignature sig expected)] |}).
Proof.
  intros Hids Hkey Hknown. cbv zeta.
  rewrite (decode_guard_passes ids sig h p md (c :: blobs) scheme key s Hids).
  destruct (key_present _ Hkey) as [Hk _]. rewrite Hk. simpl.
  rewrite (createHmac_known _ _ Hknown). step. rewrite digest_of_updates.
  destruct (String.eqb _ sig); simpl.
  - reflexivity.
  - rewrite <- app_assoc. reflexivity.
Qed.

(** C3. Round trip without a key: [_encode] returns frames, and decoding
    them, for a message whose four body fields are serializable and whose
    [idents] hold no delimiter frame, returns normally with the same
    [idents], [header], [parentHeader], [metadata] and [content]; [blobs]
    is empty, since [_encode] emits none. *)
Theorem decode_encode_roundtrip (m : Message) (scheme_e key_e scheme_d key_d : option string)
    (s : MsgState) :
  truthy_str key_e = false -> truthy_str key_d = false ->
  has_delimiter (idents m) = false ->
  serializable (header m) -> serializable (parentHeader m) ->
  serializable (metadata m) -> serializable (content m) ->
  exists frames,
    _encode scheme_e key_e m = Normal frames
    /\ let run := _decode frames scheme_d key_d s in
       fst run = Normal tt
       /\ idents (this (snd run)) = idents m
       /\ header (this (snd run)) = header m
       /\ parentHeader (this (snd run)) = parentHeader m
       /\ metadata (this (snd run)) = metadata m
       /\ content (this (snd run)) = content m
       /\ blobs (this (snd run)) = []
       /\ signatureOK (this (snd run)) = signatureOK (this s).
Proof.
  intros Hke Hkd Hids Hh Hp Hm Hc.
  eexists. split; [apply encode_returns; rewrite Hke; discriminate|].
  cbv zeta. rewrite Hke.
  rewrite (decode_unsigned _ _ _ _ _ _ [] scheme_d key_d s Hids Hkd).
  rewrite (decode_body_parsed _ _ _ _ _ _ _ _ _ _ _ _ Hh Hp Hm Hc).
  simpl. repeat split.
Qed.

Lemma body_parses_or_not (h p md c : frame) :
  (exists vh vp vm vc, JSON_parse h = Some vh /\ JSON_parse p = Some vp /\
                       JSON_parse md = Some vm /\ JSON_parse c = Some vc)
  \/ (JSON_parse h = None \/ JSON_parse p = None \/
      JSON_parse md = None \/ JSON_parse c = None).
Proof.
  destruct (JSON_parse h) as [vh|]; [|auto].
  destruct (JSON_parse p) as [vp|]; [|auto].
  destruct (JSON_parse md) as [vm|]; [|auto].
  destruct (JSON_parse c) as [vc|]; [|auto 6].
  left. eauto 10.
Qed.

(** Parsing the body frames touches neither [idents] nor [signatureOK],
    and calls [crypto.createHmac] never. *)
Lemma decode_body_frame (ids : list frame) (sig h p md c : frame) (blobs : list frame)
    (s : MsgState) :
  let '(r, s') :=
    decode_body (ids ++ DELIMITER :: sig :: h :: p :: md :: c :: blobs) (length ids) s in
  idents (this s') = idents (this s)
  /\ signatureOK (this s') = signatureOK (this s)
  /\ List.filter is_create_hmac (trace s') = List.filter is_create_hmac (trace s).
Proof.
  unfold decode_body. rewrite !lookup_after, drop_after. step.
  destruct (JSON_parse h); simpl; [|rewrite List.filter_app; simpl; rewrite app_nil_r; auto].
  destruct (JSON_parse p); simpl; [|rewrite !List.filter_app; simpl; rewrite !app_nil_r; auto].
  destruct (JSON_parse c); simpl; [|rewrite !List.filter_app; simpl; rewrite !app_nil_r; auto].
  destruct (JSON_parse md); simpl; rewrite !List.filter_app; simpl; rewrite !app_nil_r; auto.
Qed.

(** With a key, [signatureOK] is still [null] after a run only if the run
    stopped before the comparison of line 196: at the guard on the number
    of frames, at [crypto.createHmac] on a scheme that is not a hash, or
    at [hmac.update] on a missing content frame. *)
Lemma keyed_decode_unset (frames : list frame) (scheme key : option string)
    (s : MsgState) :
  truthy_str key = true ->
  let run := _decode frames scheme key s in
  signatureOK (this (snd run)) = None ->
  fst run = Thrown TypeError
  \/ (known_scheme (or_string scheme "sha256") = false /\ fst run = Thrown CryptoError)
  \/ last (trace (snd run)) = Some (ConsoleError (NotEnoughFrames frames)).
Proof.
  intros Hkey. cbv zeta.
  destruct (frames_cases frames) as [Hguard|(sig & h & p & md & tail & E)].
  - intros _. right. right. rewrite (decode_guard_fails _ _ _ _ Hguard). simpl.
    apply last_snoc.
  - pose proof (before_delimiter_clean frames) as Hids. revert Hids E.
    generalize (before_delimiter frames). intros ids Hids ->.
    destruct (known_scheme (or_string scheme "sha256")) eqn:Hknown;
      [|intros _; right; left; split; [reflexivity|];
        now rewrite (decode_unknown_scheme _ _ _ _ _ _ _ _ s Hids Hkey Hknown)].
    destruct tail as [|c blobs].
    + intros _. left.
      rewrite (decode_guard_passes ids sig h p md [] scheme key s Hids).
      destruct (key_present _ Hkey) as [Hk _]. rewrite Hk.
      rewrite (createHmac_known _ _ Hknown). reflexivity.
    + rewrite (decode_signed _ _ _ _ _ _ _ scheme key s Hids Hkey Hknown).
      destruct (String.eqb _ sig); [|discriminate].
      match goal with |- context [decode_body ?f ?i ?st] =>
        pose proof (decode_body_frame ids sig h p md c blobs st) as Hframe;
        destruct (decode_body f i st) as [r s']
      end.
      destruct Hframe as (_ & Hsig & _). simpl in *. rewrite Hsig. discriminate.
Qed.

(** C8. Decoding without a key (absent or empty) a frame sequence with a
    delimiter and five frames or more after it: no HMAC is computed and
    [signatureOK] stays as it was ([null] on a new message), whatever the
    signature frame holds; the four body frames are parsed and the frames
    after them become [blobs].  Conversely, with a non-empty key and a
    scheme that names a hash the run on the same frames reaches the
    comparison and leaves [signatureOK] set to its result, never [null];
    and on any frames, a run with a key that leaves [signatureOK] [null]
    stopped before the comparison: at the guard on the number of frames,
    with the error of [crypto.createHmac] on a scheme that is not a hash,
    or with a TypeError at [hmac.update]. *)
Theorem decode_without_key (ids : list frame) (sig h p md c : frame) (blobs : list frame)
    (scheme key : option string) (s : MsgState) :
  has_delimiter ids = false -> truthy_str key = false ->
  let frames := ids ++ DELIMITER :: sig :: h :: p :: md :: c :: blobs in
  let run := _decode frames scheme key s in
  signatureOK (this (snd run)) = signatureOK (this s)
  /\ List.filter is_create_hmac (trace (snd run)) = List.filter is_create_hmac (trace s)
  /\ (forall vh vp vm vc,
        JSON_parse h = Some vh -> JSON_parse p = Some vp ->
        JSON_parse md = Some vm -> JSON_parse c = Some vc ->
        run = (Normal tt,
               {| this := mkMessage ids vh vp vm vc blobs (signatureOK (this s));
                  trace := trace s ++ body_parsed h p md c |}))
  /\ (forall key', truthy_str key' = true ->
        known_scheme (or_string scheme "sha256") = true ->
        signatureOK (this (snd (_decode frames scheme key' s)))
        = Some (String.eqb (hmac_digest (or_string scheme "sha256") (or_string key' "")
                              (signed_text h p md c)) sig))
  /\ (forall frames' key' s0, truthy_str key' = true ->
        let run' := _decode frames' scheme key' s0 in
        signatureOK (this (snd run')) = None ->
        fst run' = Thrown TypeError
        \/ (known_scheme (or_string scheme "sha256") = false
            /\ fst run' = Thrown CryptoError)
        \/ last (trace (snd run')) = Some (ConsoleError (NotEnoughFrames frames'))).
Proof.
  intros Hids Hkey. cbv zeta.
  rewrite (decode_unsigned _ _ _ _ _ _ _ scheme key s Hids Hkey).
  pose proof (decode_body_frame ids sig h p md c blobs (with_idents ids s)) as Hframe.
  pose proof (decode_body_parsed ids sig h p md c blobs (with_idents ids s)) as Hparsed.
  destruct (decode_body _ _ (with_idents ids s)) as [r s'].
  destruct Hframe as (_ & Hsig & Hcalls). simpl.
  split; [exact Hsig|]. split; [exact Hcalls|]. split; [|split].
  - intros vh vp vm vc Hh Hp Hm Hc.
    exact (Hparsed vh vp vm vc Hh Hp Hm Hc).
  - intros key' Hkey' Hknown.
    rewrite (decode_signed _ _ _ _ _ _ _ scheme key' s Hids Hkey' Hknown).
    destruct (String.eqb _ sig); [|reflexivity].
    match goal with |- context [decode_body ?f ?i ?st] =>
      pose proof (decode_body_frame ids sig h p md c blobs st) as Hk;
      destruct (decode_body f i st) as [r' s'']
    end.
    destruct Hk as (_ & Hk & _). simpl. exact Hk.
  - intros frames' key' s0 Hkey'. apply keyed_decode_unset. exact Hkey'.
Qed.


(** What [decode_body] adds to the trace are calls of [JSON.parse]. *)
Lemma decode_body_trace (frames : list frame) (i : nat) (s : MsgState) :
  exists calls,
    trace (snd (decode_body frames i s)) = trace s ++ calls
    /\ forallb is_library_call calls = true.
Proof.
  unfold decode_body. step.
  repeat
    match goal with
    | |- context [frames !! ?k] => destruct (frames !! k); simpl
    | |- context [JSON_parse ?t] => destruct (JSON_parse t); simpl
    end;
    rewrite <- ?app_assoc; simpl;
    first [ exists []; split; [symmetry; apply app_nil_r | reflexivity]
          | eexists; split; [reflexivity | reflexivity] ].
Qed.

Lemma decode_outcomes_framed (ids : list frame) (sig h p md : frame) (tail : list frame)
    (scheme key : option string) (s : MsgState) :
  has_delimiter ids = false ->
  let frames := ids ++ DELIMITER :: sig :: h :: p :: md :: tail in
  decode_outcome ids frames (or_string scheme "sha256") (or_string key "") s
    (fst (_decode frames scheme key s)) (snd (_decode frames scheme key s)).
Proof.
  intros Hids frames. subst frames.
  destruct (truthy_str key) eqn:Hkey;
    [destruct (known_scheme (or_string scheme "sha256")) eqn:Hknown|];
    [destruct tail as [|c blobs]| |destruct tail as [|c blobs]].
  - (* a key, and no content frame: [hmac.update(undefined)] *)
    rewrite (decode_guard_passes ids sig h p md [] scheme key s Hids).
    destruct (key_present _ Hkey) as [Hk _]. rewrite Hk.
    rewrite (createHmac_known _ _ Hknown). step.
    eapply Failed; [reflexivity|left; reflexivity|reflexivity|reflexivity].
  - rewrite (decode_signed _ _ _ _ _ _ _ scheme key s Hids Hkey Hknown).
    destruct (String.eqb _ sig).
    + match goal with |- context [decode_body ?f ?i ?st] =>
        pose proof (decode_body_frame ids sig h p md c blobs st) as Hframe;
        pose proof (decode_body_trace f i st) as (calls & Htrace & Hcalls)
      end.
      destruct (body_parses_or_not h p md c) as [(vh & vp & vm & vc & Hh & Hp & Hm & Hc)|Hbad].
      * rewrite (decode_body_parsed _ _ _ _ _ _ _ _ _ _ _ _ Hh Hp Hm Hc). simpl.
        rewrite <- app_assoc.
        match goal with |- context [CallCreateHmac ?a ?b] =>
          apply (Completed _ _ _ _ _ vh vp vm vc blobs (Some true) [CallCreateHmac a b])
        end.
        reflexivity.
      * match goal with |- context [decode_body ?f ?i ?st] =>
          pose proof (decode_body_unparsable ids sig h p md c blobs st Hbad) as Hthrown;
          destruct (decode_body f i st) as [r s']
        end.
        destruct Hthrown as (-> & _ & _). destruct Hframe as (Hi & Hs & _).
        simpl in *. rewrite <- app_assoc in Htrace.
        apply (Failed _ _ _ _ _ _ _ _ Hi (or_intror Hs) Htrace). exact Hcalls.
    + apply AbortedSignature.
  - (* a key, and a scheme that is not a hash: [crypto.createHmac] *)
    rewrite (decode_unknown_scheme _ _ _ _ _ _ _ _ s Hids Hkey Hknown).
    eapply Failed; [reflexivity|left; reflexivity|reflexivity|reflexivity].
  - (* no key, and no content frame: [toJSON(undefined)] *)
    rewrite (decode_guard_passes ids sig h p md [] scheme key s Hids).
    rewrite (key_absent _ Hkey). simpl.
    pose proof (decode_body_short ids sig h p md (with_idents ids s)) as Hshort.
    match goal with |- context [decode_body ?f ?i ?st] =>
      pose proof (decode_body_trace f i st) as (calls & Htrace & Hcalls);
      destruct (decode_body f i st) as [r s']
    end.
    destruct Hshort as ([e ->] & Hi & Hs & _). simpl in *.
    apply (Failed _ _ _ _ _ _ _ _ Hi (or_introl Hs) Htrace). exact Hcalls.
  - rewrite (decode_unsigned _ _ _ _ _ _ _ scheme key s Hids Hkey).
    destruct (body_parses_or_not h p md c) as [(vh & vp & vm & vc & Hh & Hp & Hm & Hc)|Hbad].
    + rewrite (decode_body_parsed _ _ _ _ _ _ _ _ _ _ _ _ Hh Hp Hm Hc). simpl.
      apply (Completed _ _ _ _ _ vh vp vm vc blobs (signatureOK (this s)) []).
      reflexivity.
    + match goal with |- context [decode_body ?f ?i ?st] =>
        pose proof (decode_body_unparsable ids sig h p md c blobs st Hbad) as Hthrown;
        pose proof (decode_body_frame ids sig h p md c blobs st) as Hframe;
        pose proof (decode_body_trace f i st) as (calls & Htrace & Hcalls);
        destruct (decode_body f i st) as [r s']
      end.
      destruct Hthrown as (-> & _ & _). destruct Hframe as (Hi & Hs & _). simpl in *.
      apply (Failed _ _ _ _ _ _ _ _ Hi (or_introl Hs) Htrace). exact Hcalls.
Qed.

(** Every run of [_decode] ends in one of the four ways of
    [decode_outcome]; in particular the missing-delimiter line is never
    written. *)
Lemma decode_outcomes (frames : list frame) (scheme key : option string) (s : MsgState) :
  decode_outcome (before_delimiter frames) frames
    (or_string scheme "sha256") (or_string key "") s
    (fst (_decode frames scheme key s)) (snd (_decode frames scheme key s)).
Proof.
  destruct (frames_cases frames) as [Hguard|(sig & h & p & md & tail & E)].
  - rewrite (decode_guard_fails _ _ _ _ Hguard). apply AbortedFrameCount.
  - pose proof (before_delimiter_clean frames) as Hids. revert Hids E.
    generalize (before_delimiter frames). intros ids Hids ->.
    apply decode_outcomes_framed. exact Hids.
Qed.

(** Exactly four frames after the delimiter pass the guard of line 173,
    which counts the delimiter among the five frames it asks for; the run
    then throws, at [crypto.createHmac] or [hmac.update] with a key and
    at [toJSON] without, and writes no [console.error] line. *)
Lemma decode_four_frames (ids : list frame) (sig h p md : frame)
    (scheme key : option string) (s : MsgState) :
  has_delimiter ids = false ->
  let run := _decode (ids ++ [DELIMITER; sig; h; p; md]) scheme key s in
  (exists e, fst run = Thrown e)
  /\ List.filter is_console_error (trace (snd run))
     = List.filter is_console_error (trace s).
Proof.
  intros Hids. cbv zeta.
  rewrite (decode_guard_passes ids sig h p md [] scheme key s Hids).
  destruct (String.eqb (or_string key "") ""); simpl.
  - pose proof (decode_body_short ids sig h p md (with_idents ids s)) as Hshort.
    match goal with |- context [decode_body ?f ?i ?st] =>
      pose proof (decode_body_trace f i st) as (calls & Htrace & Hcalls);
      destruct (decode_body f i st) as [r s']
    end.
    destruct Hshort as (Hthrown & _). simpl in *. split; [exact Hthrown|].
    rewrite Htrace, List.filter_app.
    replace (List.filter is_console_error calls) with (@nil event); [apply app_nil_r|].
    clear Htrace. induction calls as [|e calls IH]; [reflexivity|].
    simpl in Hcalls. apply andb_true_iff in Hcalls as [He Hcalls].
    destruct e; try discriminate He; simpl; auto.
  - unfold bind at 1. unfold log at 1, modify at 1. unfold bind at 1, lift at 1.
    destruct (createHmac _ _) as [hmac|e]; step;
      (split; [eauto|]); rewrite List.filter_app; simpl; apply app_nil_r.
Qed.

(** C10 (amended). Every run of [_decode] leaves in [idents] the frames
    before the first delimiter (all the frames if there is none), whether
    it completes, aborts or throws.  When it aborts (it returns with a
    [console.error] line as its last step) [header], [parentHeader],
    [metadata], [content] and [blobs] are what they were, and so is
    [signatureOK] unless the abort is a signature mismatch, which leaves
    it [false]. *)
Theorem decode_overwrites_idents (frames : list frame) (scheme key : option string)
    (s : MsgState) :
  let run := _decode frames scheme key s in
  idents (this (snd run)) = before_delimiter frames
  /\ (forall d, fst run = Normal tt -> last (trace (snd run)) = Some (ConsoleError d) ->
        header (this (snd run)) = header (this s)
        /\ parentHeader (this (snd run)) = parentHeader (this s)
        /\ metadata (this (snd run)) = metadata (this s)
        /\ content (this (snd run)) = content (this s)
        /\ blobs (this (snd run)) = blobs (this s)
        /\ signatureOK (this (snd run))
           = match d with
             | IncorrectSignature _ _ => Some false
             | _ => signatureOK (this s)
             end).
Proof.
  pose proof (decode_outcomes frames scheme key s) as Hout. cbv zeta.
  destruct (_decode frames scheme key s) as [r s']. simpl in Hout. simpl.
  inversion Hout; subst; simpl.
  - split; [reflexivity|]. intros d _ Hlast.
    rewrite last_snoc in Hlast. injection Hlast as <-. repeat split.
  - split; [reflexivity|]. intros d _ Hlast.
    rewrite last_app in Hlast. simpl in Hlast. injection Hlast as <-. repeat split.
  - split; [assumption|]. intros d Hr. discriminate Hr.
  - split; [reflexivity|]. intros d _ Hlast.
    rewrite !last_app in Hlast. simpl in Hlast. discriminate Hlast.
Qed.

(** The second check of [_decode] is dead: no run writes the
    missing-delimiter line. *)
Lemma decode_never_reports_missing_delimiter (frames : list frame)
    (scheme key : option string) (s : MsgState) (frames' : list frame) :
  ConsoleError (MissingDelimiter frames') ∉ trace s ->
  ConsoleError (MissingDelimiter frames') ∉ trace (snd (_decode frames scheme key s)).
Proof.
  intros Hnot. pose proof (decode_outcomes frames scheme key s) as Hout.
  destruct (_decode frames scheme key s) as [r s']. simpl in *.
  inversion Hout; subst; simpl; rewrite ?elem_of_app, ?elem_of_cons, ?elem_of_nil.
  - intros [?|[?|[]]]; [auto|discriminate].
  - intros [?|[?|[?|[]]]]; [auto|discriminate|discriminate].
  - match goal with Ht : trace s' = _ |- _ => rewrite Ht end.
    rewrite elem_of_app. intros [?|Hin]; [auto|].
    match goal with Hc : forallb _ _ = true |- _ =>
      rewrite forallb_forall in Hc; apply list_elem_of_In, Hc in Hin
    end.
    discriminate Hin.
  - unfold body_parsed. rewrite ?elem_of_cons, ?elem_of_nil.
    intros [?|[Hin|Hin]]; [auto| |].
    + match goal with Hc : forallb _ _ = true |- _ =>
        rewrite forallb_forall in Hc; apply list_elem_of_In, Hc in Hin
      end.
      discriminate Hin.
    + destruct Hin as [?|[?|[?|[?|[]]]]]; discriminate.
Qed.

End CodecFacts.

(** * The codec, further *)

Section CodecComposition.
Context {json : JSONLib} {crypto : CryptoLib}.

(** Whatever way a run ends, [idents] holds the frames before the first
    delimiter. *)
Lemma decode_idents (frames : list frame) (scheme key : option string) (s : MsgState) :
  idents (this (snd (_decode frames scheme key s))) = before_delimiter frames.
Proof.
  pose proof (decode_outcomes frames scheme key s) as Hout.
  destruct (_decode frames scheme key s) as [r s']. simpl in *.
  inversion Hout; subst; simpl; auto.
Qed.

(** After any run of [_decode], completed, aborted or thrown, no frame of
    [idents] is the delimiter. *)
Theorem decode_idents_hold_no_delimiter (frames : list frame)
    (scheme key : option string) (s : MsgState) :
  has_delimiter (idents (this (snd (_decode frames scheme key s)))) = false.
Proof. rewrite decode_idents. apply before_delimiter_clean. Qed.

Lemma before_delimiter_prefix (ids rest : list frame) :
  has_delimiter ids = true ->
  before_delimiter (ids ++ rest) = before_delimiter ids.
Proof.
  unfold has_delimiter. induction ids as [|part ids IH]; simpl; intros Hhas.
  - discriminate.
  - destruct (String.eqb (toString part) DELIMITER); [reflexivity|].
    f_equal. apply IH. exact Hhas.
Qed.

(** A message whose [idents] hold a delimiter frame does not survive the
    round trip: [_encode] returns frames (its scheme names a hash when it
    has a key), and decoding them, with any scheme and key, leaves in
    [idents] only the frames before that delimiter. *)
Theorem roundtrip_truncates_idents (m : Message)
    (scheme_e key_e scheme_d key_d : option string) (s : MsgState) :
  has_delimiter (idents m) = true ->
  (truthy_str key_e = true -> known_scheme (or_string scheme_e "sha256") = true) ->
  exists frames,
    _encode scheme_e key_e m = Normal frames
    /\ let run := _decode frames scheme_d key_d s in
       idents (this (snd run)) = before_delimiter (idents m)
       /\ idents (this (snd run)) <> idents m.
Proof.
  intros Hhas Hknown. eexists. split; [now apply encode_returns|].
  cbv zeta. rewrite decode_idents.
  rewrite (before_delimiter_prefix _ _ Hhas). split; [reflexivity|].
  intros Heq. pose proof (before_delimiter_clean (idents m)) as Hclean.
  rewrite Heq, Hhas in Hclean. discriminate.
Qed.

(** The state in which [_decode] starts on the body frames, when the
    signature check is skipped or passed. *)
Lemma decode_reaches_body (ids : list frame) (sig h p md c : frame) (blobs0 : list frame)
    (scheme key : option string) (s : MsgState) :
  has_delimiter ids = false ->
  (truthy_str key = true -> known_scheme (or_string scheme "sha256") = true) ->
  (truthy_str key = true ->
   String.eqb (hmac_digest (or_string scheme "sha256") (or_string key "")
                 (signed_text h p md c)) sig = true) ->
  let frames := ids ++ DELIMITER :: sig :: h :: p :: md :: c :: blobs0 in
  _decode frames scheme key s
  = decode_body frames (length ids)
      {| this := mkMessage ids (header (this s)) (parentHeader (this s))
                   (metadata (this s)) (content (this s)) (blobs (this s))
                   (if truthy_str key then Some true else signatureOK (this s));
         trace := trace s
                  ++ (if truthy_str key
                      then [CallCreateHmac (or_string scheme "sha256") (or_string key "")]
                      else []) |}.
Proof.
  intros Hids Hknown Hsig. cbv zeta. destruct (truthy_str key) eqn:Hkey.
  - rewrite (decode_signed _ _ _ _ _ _ _ scheme key s Hids Hkey (Hknown eq_refl)).
    rewrite (Hsig eq_refl). reflexivity.
  - rewrite (decode_unsigned _ _ _ _ _ _ _ scheme key s Hids Hkey).
    unfold with_idents, set_idents. rewrite app_nil_r. reflexivity.
Qed.

(** A body frame that is not JSON makes [_decode] throw the SyntaxError of
    [JSON.parse], after the fields parsed before it are assigned.  The
    content frame is parsed before the metadata frame: when the content is
    not JSON the metadata frame is never parsed, and when only the
    metadata is not JSON the content is already assigned.  A signature
    that matched (under a scheme that names a hash) stays recorded, and no
    [console.error] line is written. *)
Theorem decode_unparsable_body (ids : list frame) (sig h p md c : frame)
    (blobs0 : list frame) (scheme key : option string) (s : MsgState) (vh vp : value) :
  has_delimiter ids = false ->
  (truthy_str key = true -> known_scheme (or_string scheme "sha256") = true) ->
  (truthy_str key = true ->
   String.eqb (hmac_digest (or_string scheme "sha256") (or_string key "")
                 (signed_text h p md c)) sig = true) ->
  JSON_parse h = Some vh -> JSON_parse p = Some vp ->
  let run := _decode (ids ++ DELIMITER :: sig :: h :: p :: md :: c :: blobs0) scheme key s in
  let checked := if truthy_str key then Some true else signatureOK (this s) in
  let hmac := if truthy_str key
              then [CallCreateHmac (or_string scheme "sha256") (or_string key "")]
              else [] in
  (JSON_parse c = None ->
   run = (Thrown SyntaxError,
          {| this := mkMessage ids vh vp (metadata (this s)) (content (this s))
                       (blobs (this s)) checked;
             trace := trace s ++ hmac
                      ++ [CallJSONParse h; CallJSONParse p; CallJSONParse c] |}))
  /\ (forall vc, JSON_parse c = Some vc -> JSON_parse md = None ->
      run = (Thrown SyntaxError,
             {| this := mkMessage ids vh vp (metadata (this s)) vc (blobs (this s)) checked;
                trace := trace s ++ hmac ++ body_parsed h p md c |})).
Proof.
  intros Hids Hknown Hsig Hh Hp. cbv zeta.
  rewrite (decode_reaches_body _ _ _ _ _ _ _ scheme key s Hids Hknown Hsig).
  unfold decode_body. rewrite !lookup_after, drop_after. step.
  rewrite Hh, Hp. simpl. split.
  - intros Hc. rewrite Hc. simpl. rewrite <- !app_assoc. reflexivity.
  - intros vc Hc Hm. rewrite Hc. simpl. rewrite Hm. simpl.
    rewrite <- !app_assoc. reflexivity.
Qed.

(** Encoding what was decoded gives the frames back, up to the [blobs],
    which [_encode] does not emit, when the body frames are the texts
    [JSON.stringify] prints for what they parse to: with a key, a scheme
    that names a hash and the signature it verified, the frames up to the
    content frame are reproduced as they were; without a key the signature
    frame comes back empty. *)
Theorem encode_decoded_frames (ids : list frame) (sig h p md c : frame)
    (blobs : list frame) (scheme key : option string) (s : MsgState)
    (vh vp vm vc : value) :
  has_delimiter ids = false ->
  (truthy_str key = true -> known_scheme (or_string scheme "sha256") = true) ->
  (truthy_str key = true ->
   String.eqb (hmac_digest (or_string scheme "sha256") (or_string key "")
                 (signed_text h p md c)) sig = true) ->
  JSON_parse h = Some vh -> JSON_parse p = Some vp ->
  JSON_parse md = Some vm -> JSON_parse c = Some vc ->
  JSON_stringify vh = h -> JSON_stringify vp = p ->
  JSON_stringify vm = md -> JSON_stringify vc = c ->
  let run := _decode (ids ++ DELIMITER :: sig :: h :: p :: md :: c :: blobs) scheme key s in
  fst run = Normal tt
  /\ _encode scheme key (this (snd run))
     = Normal (ids ++ [DELIMITER; if truthy_str key then sig else ""; h; p; md; c]).
Proof.
  intros Hids Hknown Hsig Hh Hp Hm Hc Sh Sp Sm Sc. cbv zeta.
  rewrite (decode_reaches_body _ _ _ _ _ _ _ scheme key s Hids Hknown Hsig).
  rewrite (decode_body_parsed _ _ _ _ _ _ _ _ _ _ _ _ Hh Hp Hm Hc). simpl.
  split; [reflexivity|]. rewrite (encode_returns _ _ _ Hknown). simpl.
  rewrite Sh, Sp, Sm, Sc.
  destruct (truthy_str key) eqn:Hkey; [|reflexivity].
  apply String.eqb_eq in Hsig; [|reflexivity]. now rewrite Hsig.
Qed.

End CodecComposition.

(** * The socket *)

Section SocketFacts.
Context {json : JSONLib} {crypto : CryptoLib} {uuid : UuidLib} {globals : Globals}.

(** The closure of [on] called with frames: the listener is called with
    the message whenever [_decode] returns. *)
Lemma wrapper_dispatch (listener : handler) (frames : list frame) (w : World) :
  message_listener listener frames w
  = match _decode frames (jmp_scheme (_jmp (socket w))) (jmp_key (_jmp (socket w)))
            {| this := new_Message None; trace := events w |} with
    | (Normal _, s) =>
        (Normal tt,
         set_events (trace s ++ [CallListener listener (WithMessage (this s))]) w)
    | (Thrown e, s) => (Thrown e, set_events (trace s) w)
    end.
Proof.
  unfold message_listener, method_call, record, get_state, bind, modify.
  destruct (_decode _ _ _ _) as [[[]|e] s]; reflexivity.
Qed.

(** A delivery to a socket whose only listener for the event is one
    registration is one call of that function. *)
Lemma emit_only_listener (event : string) (f : fn) (frames : list frame) (w : World) :
  Parent.listeners event (emitter (socket w)) = [Parent.mkRegistration event f] ->
  emit event frames w = call_fn f frames w.
Proof.
  intros Honly. unfold emit, bind at 1, get_state. rewrite Honly. simpl.
  unfold bind.
  destruct (call_fn f frames w) as [[[]|e] w']; reflexivity.
Qed.

(** [on("message", listener)] appends one entry to the table and one
    registration, of the same new closure, to the parent. *)
Lemma on_message_registers (listener : handler) (w : World) :
  on "message" listener w
  = (Normal tt,
     mkWorld
       (mkSocket (socketType (socket w))
          (mkJmp (jmp_scheme (_jmp (socket w))) (jmp_key (_jmp (socket w)))
             (_listeners (_jmp (socket w))
              ++ [mkListener listener (OnWrapper (closures w) listener)]))
          (emitter (socket w)
           ++ [Parent.mkRegistration "message" (OnWrapper (closures w) listener)]))
       (uuid_state w) (S (closures w)) (events w)).
Proof. reflexivity. Qed.

(** C1 (amended). [on("message", handler)] registers on the parent a new
    closure around the handler.  Each time that closure is called with the
    frames of a message it builds a new message and decodes the frames
    into it with the scheme and key of the socket; the handler is then
    called with that message whenever [_decode] returns, aborted or not,
    and is not called only when [_decode] throws.  After an abort (a
    return with a [console.error] line as the last step) the handler
    receives a message with the frames before the delimiter as [idents],
    empty objects as body fields, no [blobs], and [signatureOK] false
    after a signature mismatch and [null] otherwise; so without a
    delimiter, a message with all the frames as [idents] and nothing else
    set.  On a socket with no other message listener, a delivery is one
    call of the closure. *)
Theorem on_message_dispatch (listener : handler) (frames : list frame) (w : World) :
  let w1 := snd (on "message" listener w) in
  let wrapper := OnWrapper (closures w) listener in
  emitter (socket w1)
  = emitter (socket w) ++ [Parent.mkRegistration "message" wrapper]
  /\ (forall w2 : World,
        call_fn wrapper frames w2
        = match _decode frames (jmp_scheme (_jmp (socket w2))) (jmp_key (_jmp (socket w2)))
                  {| this := new_Message None; trace := events w2 |} with
          | (Normal _, s) =>
              (Normal tt,
               set_events (trace s ++ [CallListener listener (WithMessage (this s))]) w2)
          | (Thrown e, s) => (Thrown e, set_events (trace s) w2)
          end)
  /\ (forall (w2 : World) (d : diagnostic) (s' : MsgState),
        _decode frames (jmp_scheme (_jmp (socket w2))) (jmp_key (_jmp (socket w2)))
                {| this := new_Message None; trace := events w2 |}
        = (Normal tt, s') ->
        last (trace s') = Some (ConsoleError d) ->
        call_fn wrapper frames w2
        = (Normal tt,
           set_events (trace s' ++ [CallListener listener (WithMessage (this s'))]) w2)
        /\ this s'
           = mkMessage (before_delimiter frames)
               empty_object empty_object empty_object empty_object []
               match d with
               | IncorrectSignature _ _ => Some false
               | _ => None
               end)
  /\ (forall w2 : World,
        has_delimiter frames = false ->
        call_fn wrapper frames w2
        = (Normal tt,
           set_events
             (events w2
              ++ [ConsoleError (NotEnoughFrames frames);
                  CallListener listener
                    (WithMessage (set_idents frames (new_Message None)))]) w2))
  /\ (Parent.listeners "message" (emitter (socket w)) = [] ->
      emit "message" frames w1 = call_fn wrapper frames w1).
Proof.
  cbv zeta. rewrite on_message_registers. simpl.
  split; [reflexivity|]. split; [intros w2; apply wrapper_dispatch|]. split; [|split].
  - intros w2 d s' Hrun Hlast. simpl. rewrite wrapper_dispatch, Hrun.
    split; [reflexivity|].
    pose proof (decode_outcomes frames (jmp_scheme (_jmp (socket w2)))
                  (jmp_key (_jmp (socket w2)))
                  {| this := new_Message None; trace := events w2 |}) as Hout.
    rewrite Hrun in Hout. simpl in Hout. inversion Hout; subst; simpl in *.
    + rewrite last_snoc in Hlast. injection Hlast as <-. reflexivity.
    + rewrite last_app in Hlast. simpl in Hlast. injection Hlast as <-. reflexivity.
    + rewrite !last_app in Hlast. simpl in Hlast. discriminate Hlast.
  - intros w2 Hno. rewrite wrapper_dispatch.
    rewrite (decode_no_delimiter frames _ _ _ Hno).
    simpl. rewrite <- app_assoc. reflexivity.
  - intros Hnone.
    apply (emit_only_listener "message" (OnWrapper (closures w) listener)). simpl.
    unfold Parent.listeners in *. rewrite List.filter_app, Hnone. reflexivity.
Qed.

(** [removeAllListeners] clears the table for ["message"] or no argument,
    and then calls the parent's [removeListener] (not its
    [removeAllListeners]) without a listener: the parent throws, and its
    registrations stay. *)
Lemma removeAllListeners_run (event : option string) (w : World) :
  removeAllListeners event w
  = (Thrown TypeError,
     match event with
     | None => set_listeners [] w
     | Some e => if String.eqb e "message" then set_listeners [] w else w
     end).
Proof.
  unfold removeAllListeners, bind, parent_call, modify, ret. simpl.
  destruct event as [e|]; [destruct (String.eqb e "message")|];
    destruct w as [[? [? ? ?] ?] ? ? ?]; reflexivity.
Qed.

(** [send] on a message: the console line under [DEBUG], then the frames
    of [_encode] with the scheme and key of the socket, or what [_encode]
    throws. *)
Lemma send_message_run (m : Message) (flags : option Z) (w : World) :
  send (AMessage m) flags w
  = match _encode (jmp_scheme (_jmp (socket w))) (jmp_key (_jmp (socket w))) m with
    | Normal frames =>
        (Normal tt,
         set_events
           (events w ++ (if DEBUG then [ConsoleLog m] else []) ++ [ZmqSend frames flags]) w)
    | Thrown e =>
        (Thrown e, set_events (events w ++ (if DEBUG then [ConsoleLog m] else [])) w)
    end.
Proof.
  unfold send, bind, get_state, lift, p_send, record, modify, ret.
  destruct DEBUG; simpl;
    destruct (_encode _ _ m) as [frames|e]; simpl;
    rewrite <- ?app_assoc, ?app_nil_r; try reflexivity;
    destruct w; reflexivity.
Qed.



Lemma find_listener_new (listener : handler) (f : fn) (ls : list Listener) :
  find_listener listener ls = None ->
  find_listener listener (ls ++ [mkListener listener f]) = Some (mkListener listener f, ls).
Proof.
  induction ls as [|l ls IH]; simpl; intros Hnone.
  - now rewrite Nat.eqb_refl.
  - destruct (Nat.eqb (unwrapped l) listener); [discriminate|].
    destruct (find_listener listener ls) as [[? ?]|]; [discriminate|].
    now rewrite IH.
Qed.

(** [removeListener("message", listener)] after [on("message", listener)]
    finds the wrapper by the identity of the listener and takes both the
    entry of the table and the registration of the parent away. *)
Theorem removeListener_after_on (listener : handler) (w : World) :
  find_listener listener (_listeners (_jmp (socket w))) = None ->
  (on "message" listener ;; removeListener "message" listener)%exec w
  = (Normal tt, mkWorld (socket w) (uuid_state w) (S (closures w)) (events w)).
Proof.
  intros Hnew. unfold bind at 1. rewrite on_message_registers.
  unfold removeListener. simpl. unfold bind at 1, get_state. simpl.
  rewrite (find_listener_new _ _ _ Hnew).
  unfold bind, modify, parent_call, Parent.removeListener. simpl.
  rewrite rev_app_distr. simpl.
  unfold Parent.matches. simpl. rewrite !Nat.eqb_refl. simpl.
  rewrite rev_involutive.
  destruct w as [[? [? ? ?] ?] ? ? ?]; reflexivity.
Qed.

End SocketFacts.


(** * The socket, further *)

Section SocketComposition.
Context {json : JSONLib} {crypto : CryptoLib} {uuid : UuidLib} {globals : Globals}.

(** A message sent through one socket and delivered to a socket with the
    same scheme and key reaches the handler registered with
    [on("message", handler)] as it was sent, when its body fields are
    serializable, its [idents] hold no delimiter frame and the scheme
    names a hash (or the sockets have no key): [send] hands the ZMQ socket
    the frames of [_encode], and at their delivery the handler is called
    once, with the same [idents], [header], [parentHeader], [metadata] and
    [content], no [blobs], and [signatureOK] true when the sockets have a
    key and [null] when they have none. *)
Theorem socket_round_trip (m : Message) (flags : option Z) (listener : handler)
    (wa wb : World) :
  jmp_scheme (_jmp (socket wb)) = jmp_scheme (_jmp (socket wa)) ->
  jmp_key (_jmp (socket wb)) = jmp_key (_jmp (socket wa)) ->
  (truthy_str (jmp_key (_jmp (socket wa))) = true ->
   known_scheme (or_string (jmp_scheme (_jmp (socket wa))) "sha256") = true) ->
  has_delimiter (idents m) = false ->
  serializable (header m) -> serializable (parentHeader m) ->
  serializable (metadata m) -> serializable (content m) ->
  Parent.listeners "message" (emitter (socket wb)) = [] ->
  let scheme := jmp_scheme (_jmp (socket wa)) in
  let key := jmp_key (_jmp (socket wa)) in
  let wb1 := snd (on "message" listener wb) in
  exists frames,
    _encode scheme key m = Normal frames
    /\ send (AMessage m) flags wa
       = (Normal tt,
          set_events (events wa ++ (if DEBUG then [ConsoleLog m] else [])
                      ++ [ZmqSend frames flags]) wa)
    /\ emit "message" frames wb1
       = (Normal tt,
          set_events
            (events wb
             ++ (if truthy_str key
                 then [CallCreateHmac (or_string scheme "sha256") (or_string key "")]
                 else [])
             ++ body_parsed (JSON_stringify (header m)) (JSON_stringify (parentHeader m))
                            (JSON_stringify (metadata m)) (JSON_stringify (content m))
             ++ [CallListener listener
                   (WithMessage
                      (mkMessage (idents m) (header m) (parentHeader m) (metadata m)
                                 (content m) []
                                 (if truthy_str key then Some true else None)))]) wb1).
Proof.
  intros Hscheme Hkey Hknown Hids Sh Sp Sm Sc Hnone. cbv zeta.
  eexists. split; [apply (encode_returns _ _ _ Hknown)|].
  split; [rewrite send_message_run, (encode_returns _ _ _ Hknown); reflexivity|].
  rewrite on_message_registers. simpl.
  rewrite (emit_only_listener "message" (OnWrapper (closures wb) listener)).
  2:{ simpl. unfold Parent.listeners in *. rewrite List.filter_app, Hnone. reflexivity. }
  simpl. rewrite wrapper_dispatch. simpl. rewrite Hscheme, Hkey.
  rewrite (decode_reaches_body (idents m) _ _ _ _ _ []).
  - rewrite (decode_body_parsed _ _ _ _ _ _ _ _ _ _ _ _ Sh Sp Sm Sc). simpl.
    rewrite <- !app_assoc. reflexivity.
  - exact Hids.
  - exact Hknown.
  - intros Htruthy. rewrite Htruthy. apply String.eqb_refl.
Qed.

(** For an event other than ["message"], [on] registers the listener
    itself and records nothing: a delivery calls the listener with the
    frames as they are, nothing is decoded or written to the console, and
    [removeListener] with the same listener undoes the registration. *)
Theorem other_events_pass_through (event : string) (listener : handler)
    (frames : list frame) (w : World) :
  String.eqb event "message" = false ->
  Parent.listeners event (emitter (socket w)) = [] ->
  let w1 := snd (on event listener w) in
  _jmp (socket w1) = _jmp (socket w)
  /\ emit event frames w1
     = (Normal tt,
        set_events (events w ++ [CallListener listener (WithFrames frames)]) w1)
  /\ (on event listener ;; removeListener event listener)%exec w = (Normal tt, w).
Proof.
  intros Hevent Hnone. cbv zeta.
  assert (Hon : on event listener w
                = (Normal tt,
                   set_emitter (emitter (socket w)
                                ++ [Parent.mkRegistration event (UserFn listener)]) w)).
  { unfold on. rewrite Hevent. reflexivity. }
  rewrite Hon. simpl. split; [reflexivity|]. split.
  - rewrite (emit_only_listener event (UserFn listener)).
    + reflexivity.
    + simpl. unfold Parent.listeners in *. rewrite List.filter_app, Hnone. simpl.
      now rewrite String.eqb_refl.
  - unfold bind. rewrite Hon. unfold removeListener. rewrite Hevent. simpl.
    unfold parent_call, Parent.removeListener, modify. simpl.
    rewrite rev_app_distr. simpl. unfold Parent.matches. simpl.
    rewrite String.eqb_refl, Nat.eqb_refl. simpl. rewrite rev_involutive.
    destruct w as [[? ? ?] ? ? ?]; reflexivity.
Qed.

(** [respond] on a message whose header is not [null]: the response
    handed to [send] has the original's [idents] and header, the given
    content and metadata or empty objects, and a header of its own. *)
Lemma respond_sends (socket_send : Message -> Exec World unit)
    (messageType : string) (content' metadata' : option value)
    (protocolVersion : option string) (m : Message) (w : World) :
  header m <> VNull ->
  exists response_header,
    respond socket_send messageType content' metadata' protocolVersion m w
    = socket_send
        (mkMessage (idents m) response_header (header m)
                   (or_value metadata' empty_object) (or_value content' empty_object)
                   [] None)
        (mkWorld (socket w) (snd (uuid_v4 (uuid_state w))) (closures w) (events w)).
Proof.
  intros Hnull.
  destruct (uuid_v4 (uuid_state w)) as [id g] eqn:Hid. simpl.
  destruct (header m) as [|b|n|str|elems|props] eqn:Hh;
    [contradiction
    |destruct b
    |destruct (n =? 0) eqn:Hn
    |destruct (String.eqb str "") eqn:Hs
    |
    |destruct (lookup_prop "version" props) as [v|] eqn:Hv;
     [destruct (truthy v) eqn:Htv|]];
    (destruct protocolVersion as [pv|]; [destruct (String.eqb pv "") eqn:Hpv|]);
    eexists;
    unfold respond, uuid_v4_call, bind, get_prop, ret; rewrite Hid, Hh; simpl;
    rewrite ?Hn, ?Hs, ?Hv, ?Hpv; simpl; rewrite ?Htv; simpl; reflexivity.
Qed.

(** A reply goes back the way the request came.  When a request is
    decoded from frames (its signature verified under a scheme that names
    a hash, or no key configured) and its header frame parses to a value
    other than [null], the frames that [respond] hands to the socket start
    with the routing identities of the request and the delimiter, and
    carry the request's header as the parent header, then the metadata
    and the content given to [respond]: exactly one frame sequence is
    sent. *)
Theorem reply_routes_back (ids : list frame) (sig h p md c : frame) (blobs : list frame)
    (vh vp vm vc : value) (messageType : string) (content' metadata' : option value)
    (protocolVersion : option string) (w : World) :
  let scheme := jmp_scheme (_jmp (socket w)) in
  let key := jmp_key (_jmp (socket w)) in
  has_delimiter ids = false ->
  (truthy_str key = true -> known_scheme (or_string scheme "sha256") = true) ->
  (truthy_str key = true ->
   String.eqb (hmac_digest (or_string scheme "sha256") (or_string key "")
                 (signed_text h p md c)) sig = true) ->
  JSON_parse h = Some vh -> JSON_parse p = Some vp ->
  JSON_parse md = Some vm -> JSON_parse c = Some vc ->
  vh <> VNull ->
  let request :=
    this (snd (_decode (ids ++ DELIMITER :: sig :: h :: p :: md :: c :: blobs) scheme key
                       {| this := new_Message None; trace := [] |})) in
  exists response signature response_header,
    respond (fun r => send (AMessage r) None) messageType content' metadata'
            protocolVersion request w
    = (Normal tt,
       set_events
         (events w
          ++ (if DEBUG then [ConsoleLog response] else [])
          ++ [ZmqSend (ids ++ [DELIMITER; signature; response_header;
                               JSON_stringify vh;
                               JSON_stringify (or_value metadata' empty_object);
                               JSON_stringify (or_value content' empty_object)])
                      None])
         (mkWorld (socket w) (snd (uuid_v4 (uuid_state w))) (closures w) (events w))).
Proof.
  cbv zeta. intros Hids Hknown Hsig Hh Hp Hm Hc Hnull.
  rewrite (decode_reaches_body _ _ _ _ _ _ _ _ _ _ Hids Hknown Hsig).
  rewrite (decode_body_parsed _ _ _ _ _ _ _ _ _ _ _ _ Hh Hp Hm Hc).
  set (reply := fun r => send (AMessage r) None). simpl.
  match goal with |- context [respond _ _ _ _ _ ?req w] =>
    destruct (respond_sends reply messageType content'
                metadata' protocolVersion req w Hnull) as [rh Hrun]
  end.
  eexists. eexists. eexists. rewrite Hrun. subst reply. cbv beta.
  rewrite send_message_run. cbn [socket].
  rewrite (encode_returns _ _ _ Hknown). reflexivity.
Qed.

(** With a key and a scheme that is not a hash of the platform,
    [crypto.createHmac] throws, and nothing catches it.  [_decode] on
    frames that pass the guard on their number throws with [idents] set
    and every other field, [signatureOK] too, as it was, and without a
    [console.error] line; the closure of [on] throws with it and the
    listener is not called.  [_encode] throws, and so does [send] on a
    message, after the console line under [DEBUG]: no frame reaches the
    ZMQ socket. *)
Theorem unknown_scheme_throws (ids : list frame) (sig h p md : frame) (tail : list frame)
    (m : Message) (flags : option Z) (closure : nat) (listener : handler) (w : World) :
  let scheme := jmp_scheme (_jmp (socket w)) in
  let key := jmp_key (_jmp (socket w)) in
  has_delimiter ids = false ->
  truthy_str key = true ->
  known_scheme (or_string scheme "sha256") = false ->
  let frames := ids ++ DELIMITER :: sig :: h :: p :: md :: tail in
  let called := CallCreateHmac (or_string scheme "sha256") (or_string key "") in
  (forall s, _decode frames scheme key s
             = (Thrown CryptoError,
                {| this := set_idents ids (this s); trace := trace s ++ [called] |}))
  /\ call_fn (OnWrapper closure listener) frames w
     = (Thrown CryptoError, set_events (events w ++ [called]) w)
  /\ _encode scheme key m = Thrown CryptoError
  /\ send (AMessage m) flags w
     = (Thrown CryptoError,
        set_events (events w ++ (if DEBUG then [ConsoleLog m] else [])) w).
Proof.
  cbv zeta. intros Hids Hkey Hunknown.
  assert (Hencode : _encode (jmp_scheme (_jmp (socket w))) (jmp_key (_jmp (socket w))) m
                    = Thrown CryptoError).
  { rewrite encode_unfold, Hkey, Hunknown. reflexivity. }
  split; [intros s; now apply decode_unknown_scheme|]. split; [|split].
  - simpl. rewrite wrapper_dispatch.
    rewrite (decode_unknown_scheme _ _ _ _ _ _ _ _ _ Hids Hkey Hunknown). reflexivity.
  - exact Hencode.
  - rewrite send_message_run, Hencode. reflexivity.
Qed.

(** [new Message(properties)] never leaves a falsy field: whatever the
    properties hold, the four body fields of the new message are truthy
    (a [null], [0], [false] or empty-string property gives way to an empty
    object), a truthy property is kept as it is, and [signatureOK] is
    [null].  So [respond] on a message as the constructor built it always
    gets to [send]. *)
Theorem new_Message_fields (properties : option Properties) :
  let m := new_Message properties in
  truthy (header m) = true /\ truthy (parentHeader m) = true
  /\ truthy (metadata m) = true /\ truthy (content m) = true
  /\ signatureOK m = None
  /\ (forall props v, properties = Some props -> p_header props = Some v ->
        truthy v = true -> header m = v)
  /\ (forall (socket_send : Message -> Exec World unit) messageType content' metadata'
             protocolVersion (w : World),
        exists response,
          respond socket_send messageType content' metadata' protocolVersion m w
          = socket_send response
              (mkWorld (socket w) (snd (uuid_v4 (uuid_state w))) (closures w) (events w))).
Proof.
  cbv zeta.
  assert (Hor : forall o, truthy (or_value o empty_object) = true).
  { intros [v|]; simpl; [|reflexivity]. destruct (truthy v) eqn:E; [exact E|reflexivity]. }
  repeat (split; [solve [apply Hor | reflexivity]|]). split.
  - intros props v -> Hv Htruthy. simpl. rewrite Hv. simpl. now rewrite Htruthy.
  - intros socket_send messageType content' metadata' protocolVersion w.
    assert (Hnull : header (new_Message properties) <> VNull).
    { intros Heq. pose proof (Hor (properties ≫= p_header)) as Ht.
      simpl in Heq. rewrite Heq in Ht. discriminate. }
    destruct (respond_sends socket_send messageType content' metadata' protocolVersion
                _ w Hnull) as [rh Hrun].
    eexists. exact Hrun.
Qed.

End SocketComposition.

(** * The table of listeners *)

Section SocketInvariant.
Context {json : JSONLib} {crypto : CryptoLib} {uuid : UuidLib} {globals : Globals}.

Lemma fn_eqb_eq (f g : fn) : fn_eqb f g = true -> f = g.
Proof.
  destruct f, g; simpl; try discriminate; intros Heq;
    try (apply andb_true_iff in Heq as [Hc Hh]; apply Nat.eqb_eq in Hc);
    try apply Nat.eqb_eq in Hh; try apply Nat.eqb_eq in Heq; congruence.
Qed.

Lemma remove_first_other (event : string) (f : fn) (rs : Parent.state)
    (r : Parent.registration) :
  In r rs -> Parent.r_fn r <> f -> In r (Parent.remove_first event f rs).
Proof.
  intros Hin Hne. induction rs as [|r0 rs IH]; simpl in *; [auto|].
  destruct (Parent.matches event f r0) eqn:Hm.
  - destruct Hin as [->|Hin]; [|exact Hin].
    unfold Parent.matches in Hm. apply andb_true_iff in Hm as [_ Hm].
    apply fn_eqb_eq in Hm. contradiction.
  - destruct Hin as [->|Hin]; simpl; auto.
Qed.

Lemma removed_other (event : string) (f : fn) (rs : Parent.state)
    (r : Parent.registration) :
  In r rs -> Parent.r_fn r <> f ->
  In r (rev (Parent.remove_first event f (rev rs))).
Proof.
  intros Hin Hne. apply in_rev in Hin. rewrite <- in_rev.
  now apply remove_first_other.
Qed.

(** The parent's [removeListener] for a function that no entry of the
    table holds. *)
Lemma consistent_remove_other (sk : Socket) (made : nat) (event : string) (f : fn) :
  consistent sk made ->
  (forall l, In l (_listeners (_jmp sk)) -> wrapped l <> f) ->
  consistent (mkSocket (socketType sk) (_jmp sk)
                (rev (Parent.remove_first event f (rev (emitter sk))))) made.
Proof.
  intros (Hentries & Hdistinct) Hother.
  split; [intros l Hin; split|]; simpl in *.
  - now apply Hentries.
  - apply removed_other; [now apply Hentries|simpl; now apply Hother].
  - exact Hdistinct.
Qed.

(** [removeListener("message", listener)] for a listener of the table:
    the other entries hold other closures, which stay registered. *)
Lemma consistent_remove_entry (sk : Socket) (made : nat) (pre post : list Listener)
    (l : Listener) :
  _listeners (_jmp sk) = pre ++ l :: post ->
  consistent sk made ->
  consistent (mkSocket (socketType sk)
                (mkJmp (jmp_scheme (_jmp sk)) (jmp_key (_jmp sk)) (pre ++ post))
                (rev (Parent.remove_first "message" (wrapped l) (rev (emitter sk))))) made.
Proof.
  intros Htable (Hentries & Hdistinct). rewrite Htable in *.
  rewrite map_app in Hdistinct. simpl in Hdistinct.
  apply List.NoDup_remove in Hdistinct as [Hrest Hfresh].
  rewrite <- map_app in Hrest, Hfresh.
  assert (Hkeep : forall l', In l' (pre ++ post) -> In l' (pre ++ l :: post)).
  { intros l' Hin. apply in_app_iff in Hin as [Hin|Hin]; apply in_app_iff;
      [left|right; right]; exact Hin. }
  split; [intros l' Hin; split|]; simpl in *.
  - now apply Hentries, Hkeep.
  - apply removed_other; [now apply Hentries, Hkeep|].
    simpl. intros Heq. apply Hfresh. rewrite <- Heq. now apply in_map.
  - exact Hrest.
Qed.

(** The parent's [on] with a function of the caller. *)
Lemma consistent_append (sk : Socket) (made : nat) (event : string) (f : fn) :
  consistent sk made ->
  consistent (mkSocket (socketType sk) (_jmp sk)
                (emitter sk ++ [Parent.mkRegistration event f])) made.
Proof.
  intros (Hentries & Hdistinct).
  split; [intros l Hin; split|]; simpl in *.
  - now apply Hentries.
  - apply in_app_iff. left. now apply Hentries.
  - exact Hdistinct.
Qed.

(** [on("message", listener)]: a new entry with a new closure. *)
Lemma consistent_new_entry (sk : Socket) (made : nat) (listener : handler) :
  consistent sk made ->
  consistent
    (mkSocket (socketType sk)
       (mkJmp (jmp_scheme (_jmp sk)) (jmp_key (_jmp sk))
          (_listeners (_jmp sk) ++ [mkListener listener (OnWrapper made listener)]))
       (emitter sk ++ [Parent.mkRegistration "message" (OnWrapper made listener)]))
    (S made).
Proof.
  intros (Hentries & Hdistinct).
  split; [intros l H; split|]; simpl in *.
  - apply in_app_iff in H as [Hin|[<-|[]]].
    + destruct (Hentries l Hin) as [(c & Hw & Hc) _]. exists c. split; [exact Hw|lia].
    + exists made. split; [reflexivity|lia].
  - apply in_app_iff in H as [Hin|[<-|[]]]; apply in_app_iff.
    + left. now apply Hentries.
    + right. left. reflexivity.
  - rewrite map_app. simpl. apply List.NoDup_app.
    + exact Hdistinct.
    + constructor; [intros []|constructor].
    + intros f Hin [<-|[]]. apply in_map_iff in Hin as (l & Hw & Hin).
      destruct (Hentries l Hin) as [(c & Hc & Hlt) _]. rewrite Hc in Hw.
      injection Hw as -> _. lia.
Qed.

Lemma consistent_clear (sk : Socket) (made : nat) :
  consistent (mkSocket (socketType sk)
                (mkJmp (jmp_scheme (_jmp sk)) (jmp_key (_jmp sk)) []) (emitter sk)) made.
Proof. split; [intros l []|constructor]. Qed.

Lemma find_listener_split (listener : handler) (ls rest : list Listener) (l : Listener) :
  find_listener listener ls = Some (l, rest) ->
  exists pre post, ls = pre ++ l :: post /\ rest = pre ++ post.
Proof.
  revert rest. induction ls as [|l0 ls IH]; simpl; intros rest Hfind; [discriminate|].
  destruct (Nat.eqb (unwrapped l0) listener).
  - injection Hfind as <- <-. exists [], ls. split; reflexivity.
  - destruct (find_listener listener ls) as [[found rest']|]; [|discriminate].
    injection Hfind as <- <-. destruct (IH rest' eq_refl) as (pre & post & -> & ->).
    exists (l0 :: pre), post. split; reflexivity.
Qed.

(** A call of a registered function changes the trace only. *)
Lemma call_fn_keeps (f : fn) (frames : list frame) (w : World) :
  socket (snd (call_fn f frames w)) = socket w
  /\ closures (snd (call_fn f frames w)) = closures w.
Proof.
  destruct f as [h|c h]; simpl; [split; reflexivity|];
    rewrite wrapper_dispatch; destruct (_decode _ _ _ _) as [[[]|e] s']; split; reflexivity.
Qed.

(** So does a delivery. *)
Lemma call_listeners_keeps (rs : list Parent.registration) (frames : list frame)
    (w : World) :
  socket (snd (call_listeners rs frames w)) = socket w
  /\ closures (snd (call_listeners rs frames w)) = closures w.
Proof.
  revert w. induction rs as [|r rs IH]; intros w; [split; reflexivity|].
  simpl. unfold bind.
  pose proof (call_fn_keeps (Parent.r_fn r) frames w) as [Hs Hc].
  destruct (call_fn (Parent.r_fn r) frames w) as [[[]|e] w1]; simpl in *.
  - destruct (IH w1) as [Hs1 Hc1]. rewrite Hs1, Hc1. split; assumption.
  - split; assumption.
Qed.

Lemma emit_keeps (event : string) (frames : list frame) (w : World) :
  socket (snd (emit event frames w)) = socket w
  /\ closures (snd (emit event frames w)) = closures w.
Proof.
  unfold emit, bind, get_state.
  destruct (Parent.listeners event (emitter (socket w))) as [|r rs] eqn:Hrs.
  - destruct (String.eqb event "error"); split; reflexivity.
  - apply call_listeners_keeps.
Qed.

(** Every call keeps the table and the parent's registrations in
    agreement, whether it returns or throws. *)
Lemma run_call_consistent (c : call) (w : World) :
  consistent (socket w) (closures w) ->
  consistent (socket (snd (run_call c w))) (closures (snd (run_call c w))).
Proof.
  intros Hw. destruct c as [event h|event h|event|message flags|event frames];
    simpl.
  - unfold on. destruct (String.eqb event "message") eqn:Hevent; simpl.
    + apply String.eqb_eq in Hevent as ->. now apply consistent_new_entry.
    + now apply consistent_append.
  - unfold removeListener. destruct (String.eqb event "message") eqn:Hevent; simpl.
    + apply String.eqb_eq in Hevent as ->. unfold bind, get_state.
      destruct (find_listener h (_listeners (_jmp (socket w)))) as [[l rest]|] eqn:Hfind;
        simpl.
      * destruct (find_listener_split _ _ _ _ Hfind) as (pre & post & Htable & ->).
        now apply consistent_remove_entry.
      * apply consistent_remove_other; [exact Hw|].
        intros l Hin. destruct Hw as (Hentries & _).
        destruct (Hentries l Hin) as [(c & -> & _) _]. discriminate.
    + apply consistent_remove_other; [exact Hw|].
      intros l Hin. destruct Hw as (Hentries & _).
      destruct (Hentries l Hin) as [(c & -> & _) _]. discriminate.
  - unfold removeAllListeners, bind, parent_call, modify, ret. simpl.
    destruct event as [e|]; [destruct (String.eqb e "message")|]; simpl;
      try exact Hw; apply consistent_clear.
  - destruct message as [m|fs]; [rewrite send_message_run|]; try exact Hw.
    destruct (_encode _ _ m); exact Hw.
  - destruct (emit_keeps event frames w) as [-> ->]. exact Hw.
Qed.

(** On a new socket, after any sequence of calls of [on],
    [removeListener], [removeAllListeners] and [send] and of deliveries,
    returned or thrown, the table [_jmp._listeners] and the parent agree:
    every entry of the table holds a closure of [on] around its own
    listener, made before now, that closure is registered for
    ["message"] on the parent, and no two entries hold the same closure. *)
Theorem table_agrees_with_parent (cs : list call) (socketType : string)
    (scheme key : option string) (g : rng) (made : nat) (es : list event) :
  let w := run_calls cs (mkWorld (new_Socket socketType scheme key) g made es) in
  (forall l, In l (_listeners (_jmp (socket w))) ->
     (exists c, wrapped l = OnWrapper c (unwrapped l) /\ (c < closures w)%nat)
     /\ In (Parent.mkRegistration "message" (wrapped l)) (emitter (socket w)))
  /\ List.NoDup (List.map wrapped (_listeners (_jmp (socket w)))).
Proof.
  cbv zeta.
  assert (Hreach : forall w0, consistent (socket w0) (closures w0) ->
                     consistent (socket (run_calls cs w0)) (closures (run_calls cs w0))).
  { induction cs as [|c cs IH]; intros w0 Hw0; [exact Hw0|].
    simpl. apply IH. now apply run_call_consistent. }
  apply (Hreach (mkWorld (new_Socket socketType scheme key) g made es)).
  split; [intros l []|constructor].
Qed.

End SocketInvariant.

(** * Runs on the reference platform *)

Section Runs.
#[local] Existing Instance Reference.json.
#[local] Existing Instance Reference.crypto.
#[local] Existing Instance Reference.uuid.
#[local] Existing Instance Reference.globals.
Import Sample.

(** C9, on two frames without a delimiter. *)
Lemma decode_without_delimiter_witness :
  has_delimiter ["client-1"; "hello"] = false
  /\ _decode ["client-1"; "hello"] None (Some "k") fresh
     = (Normal tt,
        {| this := aborted_message ["client-1"; "hello"] None;
           trace := [ConsoleError (NotEnoughFrames ["client-1"; "hello"])] |}).
Proof.
  split; [reflexivity|].
  exact (proj1 (decode_without_delimiter ["client-1"; "hello"] None (Some "k") fresh
                  eq_refl)).
Defined.

(** C3, on the sample request. *)
Lemma decode_encode_roundtrip_witness :
  serializable (header request) /\ serializable (parentHeader request)
  /\ serializable (metadata request) /\ serializable (content request)
  /\ has_delimiter (idents request) = false
  /\ exists frames,
       _encode None None request = Normal frames
       /\ let run := _decode frames None (Some "") fresh in
          fst run = Normal tt
          /\ idents (this (snd run)) = ["client-1"]
          /\ header (this (snd run)) = request_header
          /\ parentHeader (this (snd run)) = empty_object
          /\ metadata (this (snd run)) = empty_object
          /\ content (this (snd run)) = VObj [("code", VStr "1+1")]
          /\ blobs (this (snd run)) = []
          /\ signatureOK (this (snd run)) = None.
Proof.
  repeat (split; [vm_compute; reflexivity|]).
  apply (decode_encode_roundtrip request None None None (Some "") fresh);
    vm_compute; reflexivity.
Defined.


(** C7, on the sample request with the key [k] and the default scheme. *)
Lemma encode_frames_witness :
  truthy_str (Some "k") = true /\ known_scheme "sha256" = true
  /\ _encode None (Some "k") request
     = Normal (["client-1"]
               ++ [DELIMITER;
                   hmac_digest "sha256" "k"
                     (signed_text (JSON_stringify request_header) "{}" "{}"
                                  (JSON_stringify (VObj [("code", VStr "1+1")])));
                   JSON_stringify request_header; "{}"; "{}";
                   JSON_stringify (VObj [("code", VStr "1+1")])]).
Proof.
  split; [reflexivity|]. split; [reflexivity|].
  exact (proj1 (encode_frames None (Some "k") request (fun _ => eq_refl))).
Defined.

(** C8, on frames whose signature frame is not a signature. *)
Lemma decode_without_key_witness :
  has_delimiter ["client-1"] = false /\ truthy_str None = false
  /\ _decode (["client-1"] ++ [DELIMITER; "not-checked"; "{}"; "{}"; "{}"; "[1]"; "blob"])
             None None fresh
     = (Normal tt,
        {| this := mkMessage ["client-1"] empty_object empty_object empty_object
                             (VArr [VNum 1]) ["blob"] None;
           trace := body_parsed "{}" "{}" "{}" "[1]" |}).
Proof.
  split; [reflexivity|]. split; [reflexivity|].
  pose proof (decode_without_key ["client-1"] "not-checked" "{}" "{}" "{}" "[1]" ["blob"]
                None None fresh eq_refl eq_refl) as (_ & _ & Hparsed & _ & _).
  exact (Hparsed _ _ _ _ eq_refl eq_refl eq_refl eq_refl).
Defined.

(** C10, on frames with a wrong signature: the abort leaves the body
    fields as they were and [signatureOK] false. *)
Lemma decode_overwrites_idents_witness :
  let run := _decode ["client-1"; DELIMITER; "bad"; "{}"; "{}"; "{}"; "{}"]
                     None (Some "k") fresh in
  idents (this (snd run)) = ["client-1"]
  /\ header (this (snd run)) = empty_object
  /\ signatureOK (this (snd run)) = Some false.
Proof.
  pose proof (decode_overwrites_idents
                ["client-1"; DELIMITER; "bad"; "{}"; "{}"; "{}"; "{}"]
                None (Some "k") fresh) as [Hidents Habort].
  destruct (Habort (IncorrectSignature "bad" "1a2a8e71") eq_refl eq_refl)
    as (Hheader & _ & _ & _ & _ & Hsig).
  split; [exact Hidents|]. split; [exact Hheader|exact Hsig].
Defined.

(** C10 as stated fails: an abort for a signature mismatch changes
    [signatureOK], a field other than [idents], from [null] to [false]. *)
Lemma mismatch_sets_signatureOK :
  let run := _decode [DELIMITER; "bad"; "{}"; "{}"; "{}"; "{}"] None (Some "k") fresh in
  fst run = Normal tt
  /\ last (trace (snd run)) = Some (ConsoleError (IncorrectSignature "bad" "1a2a8e71"))
  /\ signatureOK (this fresh) = None
  /\ signatureOK (this (snd run)) = Some false.
Proof. vm_compute. repeat split. Qed.

(** C2: the code at a delimiter followed by four frames.  The run does
    not abort on the frame count: it parses the header and the parent
    header, sets both fields, and throws a TypeError at the missing
    content frame. *)
Theorem decode_four_frames_throws :
  _decode [DELIMITER; ""; JSON_stringify request_header; "{}"; "{}"] None None fresh
  = (Thrown TypeError,
     {| this := set_header request_header (new_Message None);
        trace := [CallJSONParse (JSON_stringify request_header); CallJSONParse "{}"] |}).
Proof. vm_compute. reflexivity. Qed.

(** C1, on a socket without a key and frames without a delimiter. *)
Lemma on_message_dispatch_witness :
  Parent.listeners "message" (emitter (socket (router None))) = []
  /\ has_delimiter ["hello"] = false
  /\ emit "message" ["hello"] (snd (on "message" on_request (router None)))
     = (Normal tt,
        set_events [ConsoleError (NotEnoughFrames ["hello"]);
                    CallListener on_request (WithMessage (aborted_message ["hello"] None))]
                   (snd (on "message" on_request (router None)))).
Proof.
  split; [reflexivity|]. split; [reflexivity|].
  pose proof (on_message_dispatch on_request ["hello"] (router None))
    as (_ & _ & _ & Habort & Hemit).
  exact (eq_trans (Hemit eq_refl) (Habort _ eq_refl)).
Defined.

(** C1 as stated fails: the handler is called after an aborted decode,
    both when the frames hold no delimiter and when the signature does
    not match. *)
Lemma handler_called_after_abort :
  events (snd ((on "message" on_request ;; emit "message" ["hello"])%exec (router None)))
  = [ConsoleError (NotEnoughFrames ["hello"]);
     CallListener on_request (WithMessage (aborted_message ["hello"] None))]
  /\ events (snd ((on "message" on_request ;;
                   emit "message" ["client-1"; DELIMITER; "bad"; "{}"; "{}"; "{}"; "{}"])%exec
                    (router (Some "k"))))
     = [CallCreateHmac "sha256" "k";
        ConsoleError (IncorrectSignature "bad" "1a2a8e71");
        CallListener on_request (WithMessage (aborted_message ["client-1"] (Some false)))].
Proof. vm_compute. split; reflexivity. Qed.

(** C5: the code after [on("message", listener)].  [removeAllListeners]
    empties the table, but the call it forwards to the parent is
    [removeListener] without a listener: it throws, the wrapper stays
    registered, and the next message still reaches the listener. *)
Theorem removeAllListeners_keeps_wrapper :
  let w1 := snd (on "message" on_request (router None)) in
  let run := removeAllListeners (Some "message") w1 in
  fst run = Thrown TypeError
  /\ fst (removeAllListeners None w1) = Thrown TypeError
  /\ _listeners (_jmp (socket (snd run))) = []
  /\ emitter (socket (snd run))
     = [Parent.mkRegistration "message" (OnWrapper 0 on_request)]
  /\ emitter (socket (snd (removeAllListeners None w1)))
     = [Parent.mkRegistration "message" (OnWrapper 0 on_request)]
  /\ events (snd (emit "message" ["hello"] (snd run)))
     = [ConsoleError (NotEnoughFrames ["hello"]);
        CallListener on_request (WithMessage (aborted_message ["hello"] None))].
Proof. vm_compute. repeat split. Qed.



(** A delimiter followed by three frames: the frame-count abort. *)
Lemma decode_too_few_frames_witness :
  has_delimiter ["client-1"] = false /\ (length ["sig"; "{}"; "{}"] < 4)%nat
  /\ _decode (["client-1"] ++ DELIMITER :: ["sig"; "{}"; "{}"]) None None fresh
     = (Normal tt,
        {| this := aborted_message ["client-1"] None;
           trace := [ConsoleError (NotEnoughFrames
                                     (["client-1"] ++ DELIMITER :: ["sig"; "{}"; "{}"]))] |}).
Proof.
  assert (Hlen : (length ["sig"; "{}"; "{}"] < 4)%nat) by (simpl; lia).
  split; [reflexivity|]. split; [exact Hlen|].
  exact (decode_too_few_frames ["client-1"] ["sig"; "{}"; "{}"] None None fresh
           eq_refl Hlen).
Defined.

(** A delimiter followed by four frames, with a key. *)
Lemma decode_four_frames_witness :
  has_delimiter ["client-1"] = false
  /\ exists e, fst (_decode (["client-1"] ++ [DELIMITER; "sig"; "{}"; "{}"; "{}"])
                            None (Some "k") fresh) = Thrown e.
Proof.
  split; [reflexivity|].
  exact (proj1 (decode_four_frames ["client-1"] "sig" "{}" "{}" "{}" None (Some "k") fresh
                  eq_refl)).
Defined.

(** No run on the sample frames writes the missing-delimiter line. *)
Lemma decode_never_reports_missing_delimiter_witness :
  (ConsoleError (MissingDelimiter ["hello"]) ∉ trace fresh)
  /\ (ConsoleError (MissingDelimiter ["hello"])
      ∉ trace (snd (_decode ["hello"] None None fresh))).
Proof.
  assert (Hfresh : ConsoleError (MissingDelimiter ["hello"]) ∉ trace fresh)
    by apply not_elem_of_nil.
  split; [exact Hfresh|].
  exact (decode_never_reports_missing_delimiter ["hello"] None None fresh ["hello"] Hfresh).
Defined.

(** [on] then [removeListener] on the sample socket. *)
Lemma removeListener_after_on_witness :
  find_listener on_request (_listeners (_jmp (socket (router None)))) = None
  /\ (on "message" on_request ;; removeListener "message" on_request)%exec (router None)
     = (Normal tt, mkWorld (new_Socket "router" None None) 0%nat 1%nat []).
Proof.
  split; [reflexivity|].
  exact (removeListener_after_on on_request (router None) eq_refl).
Defined.

(** Idents that hold a delimiter come back cut at it. *)
Lemma roundtrip_truncates_idents_witness :
  has_delimiter ["a"; DELIMITER; "b"] = true
  /\ exists frames,
       _encode None (Some "k")
               (mkMessage ["a"; DELIMITER; "b"] request_header empty_object
                          empty_object empty_object [] None)
       = Normal frames
       /\ let run := _decode frames None (Some "k") fresh in
          idents (this (snd run)) = ["a"]
          /\ idents (this (snd run)) <> ["a"; DELIMITER; "b"].
Proof.
  split; [reflexivity|].
  exact (roundtrip_truncates_idents
           (mkMessage ["a"; DELIMITER; "b"] request_header empty_object
                      empty_object empty_object [] None)
           None (Some "k") None (Some "k") fresh eq_refl (fun _ => eq_refl)).
Defined.

(** A signed message whose content frame is not JSON. *)
Lemma decode_unparsable_body_witness :
  has_delimiter ["client-1"] = false
  /\ JSON_parse "oops" = None
  /\ _decode (["client-1"] ++ [DELIMITER; "0285c132";
                                "{}"; "{}"; "{}"; "oops"; "blob"])
             None (Some "k") fresh
     = (Thrown SyntaxError,
        {| this := mkMessage ["client-1"] empty_object empty_object empty_object
                             empty_object [] (Some true);
           trace := [CallCreateHmac "sha256" "k"; CallJSONParse "{}"; CallJSONParse "{}";
                     CallJSONParse "oops"] |}).
Proof.
  split; [reflexivity|]. split; [reflexivity|].
  exact (proj1 (decode_unparsable_body ["client-1"]
                  "0285c132"
                  "{}" "{}" "{}" "oops" ["blob"] None (Some "k") fresh
                  empty_object empty_object eq_refl (fun _ => eq_refl) (fun _ => eq_refl)
                  eq_refl eq_refl)
               eq_refl).
Defined.

(** Signed frames with a blob, decoded and encoded again. *)
Lemma encode_decoded_frames_witness :
  has_delimiter ["client-1"] = false
  /\ let run := _decode (["client-1"] ++ [DELIMITER; "1a2a8e71"; "{}"; "{}"; "{}"; "{}"; "blob"])
                        None (Some "k") fresh in
     fst run = Normal tt
     /\ _encode None (Some "k") (this (snd run))
        = Normal ["client-1"; DELIMITER; "1a2a8e71"; "{}"; "{}"; "{}"; "{}"].
Proof.
  split; [reflexivity|].
  exact (encode_decoded_frames ["client-1"] "1a2a8e71" "{}" "{}" "{}" "{}" ["blob"]
           None (Some "k") fresh empty_object empty_object empty_object empty_object
           eq_refl (fun _ => eq_refl) (fun _ => eq_refl) eq_refl eq_refl eq_refl eq_refl
           eq_refl eq_refl eq_refl eq_refl).
Defined.

(** The sample request from one keyed socket to another. *)
Lemma socket_round_trip_witness :
  has_delimiter (idents request) = false
  /\ known_scheme "sha256" = true
  /\ Parent.listeners "message" (emitter (socket (router (Some "k")))) = []
  /\ exists frames,
       send (AMessage request) None (router (Some "k"))
       = (Normal tt, set_events [ZmqSend frames None] (router (Some "k")))
       /\ fst (emit "message" frames (snd (on "message" on_request (router (Some "k")))))
          = Normal tt
       /\ List.last (events (snd (emit "message" frames
                                    (snd (on "message" on_request (router (Some "k")))))))
                    (ConsoleLog request)
          = CallListener on_request
              (WithMessage (mkMessage ["client-1"] request_header empty_object empty_object
                                      (VObj [("code", VStr "1+1")]) [] (Some true))).
Proof.
  split; [reflexivity|]. split; [reflexivity|]. split; [reflexivity|].
  destruct (socket_round_trip (json := Reference.json) (crypto := Reference.crypto)
              (uuid := Reference.uuid) (globals := Reference.globals)
              request None on_request (router (Some "k"))
              (router (Some "k")) eq_refl eq_refl (fun _ => eq_refl) eq_refl eq_refl
              eq_refl eq_refl eq_refl eq_refl) as (frames & _ & Hsent & Hdelivered).
  exists frames. split; [exact Hsent|]. split.
  - exact (f_equal fst Hdelivered).
  - exact (f_equal (fun run => List.last (events (snd run)) (ConsoleLog request)) Hdelivered).
Defined.

(** A listener of the event [close] on the sample socket. *)
Lemma other_events_pass_through_witness :
  String.eqb "close" "message" = false
  /\ Parent.listeners "close" (emitter (socket (router None))) = []
  /\ emit "close" ["x"] (snd (on "close" on_request (router None)))
     = (Normal tt,
        set_events [CallListener on_request (WithFrames ["x"])]
                   (snd (on "close" on_request (router None))))
  /\ (on "close" on_request ;; removeListener "close" on_request)%exec (router None)
     = (Normal tt, router None).
Proof.
  split; [reflexivity|]. split; [reflexivity|].
  exact (proj2 (other_events_pass_through "close" on_request ["x"] (router None)
                  eq_refl eq_refl)).
Defined.

(** A reply to signed frames on the sample socket. *)
Lemma reply_routes_back_witness :
  has_delimiter ["client-1"] = false
  /\ exists response signature response_header,
       respond (fun r => send (AMessage r) None) "execute_reply" None None None
               (this (snd (_decode (["client-1"] ++ [DELIMITER; "1a2a8e71"; "{}"; "{}"; "{}";
                                                     "{}"; "blob"])
                                   None (Some "k") fresh)))
               (router (Some "k"))
       = (Normal tt,
          set_events
            ([] ++ (if DEBUG then [ConsoleLog response] else [])
             ++ [ZmqSend (["client-1"] ++ [DELIMITER; signature; response_header;
                                            JSON_stringify empty_object;
                                            JSON_stringify empty_object;
                                            JSON_stringify empty_object])
                         None])
            (mkWorld (socket (router (Some "k"))) (snd (uuid_v4 0%nat)) 0%nat [])).
Proof.
  split; [reflexivity|].
  refine (reply_routes_back ["client-1"] "1a2a8e71" "{}" "{}" "{}" "{}" ["blob"]
            empty_object empty_object empty_object empty_object
            "execute_reply" None None None (router (Some "k"))
            eq_refl (fun _ => eq_refl) (fun _ => eq_refl) eq_refl eq_refl eq_refl eq_refl _).
  discriminate.
Defined.

(** The sample socket with a scheme that is not a hash. *)
Lemma unknown_scheme_throws_witness :
  has_delimiter ["client-1"] = false /\ known_scheme "rot13" = false
  /\ emit "message" ["client-1"; DELIMITER; "sig"; "{}"; "{}"; "{}"; "{}"]
          (snd (on "message" on_request odd_router))
     = (Thrown CryptoError,
        set_events [CallCreateHmac "rot13" "k"] (snd (on "message" on_request odd_router)))
  /\ send (AMessage request) None odd_router = (Thrown CryptoError, odd_router).
Proof.
  split; [reflexivity|]. split; [reflexivity|].
  pose proof (unknown_scheme_throws (json := Reference.json) (crypto := Reference.crypto)
                (uuid := Reference.uuid) (globals := Reference.globals)
                ["client-1"] "sig" "{}" "{}" "{}" ["{}"] request None
                0%nat on_request (snd (on "message" on_request odd_router))
                eq_refl eq_refl eq_refl) as (_ & Hcalled & _ & _).
  pose proof (unknown_scheme_throws (json := Reference.json) (crypto := Reference.crypto)
                (uuid := Reference.uuid) (globals := Reference.globals)
                ["client-1"] "sig" "{}" "{}" "{}" ["{}"] request None
                0%nat on_request odd_router eq_refl eq_refl eq_refl) as (_ & _ & _ & Hsent).
  split; [exact Hcalled|exact Hsent].
Defined.

End Runs.
